(** * The pod-discovery reverse proxy (src/app.js)

    The source file holds two variants of the same program: a minimal
    one ([getIpForPod] and its two handlers) and a full one
    ([discoverAndGetIp], [checkAllPodsHavePodId] and their handlers).
    Both are embedded here, each in a module of its own, over a common
    model of the JavaScript values and effects they use. *)

From Stdlib Require Import Ascii ZArith Lia.
From stdpp Require Import base strings gmap list.

Local Open Scope Z_scope.
Local Open Scope string_scope.
Local Open Scope list_scope.

(** ** JavaScript strings *)

(** [s.includes(c)] for a one-character needle. *)
Fixpoint includes (c : ascii) (s : string) : bool :=
  match s with
  | EmptyString => false
  | String a t => if Ascii.eqb a c then true else includes c t
  end.

(** [s.split(c)] for a one-character separator: the pieces between the
    separators, empty pieces included; the empty string gives one empty
    piece. *)
Fixpoint split (c : ascii) (s : string) : list string :=
  match s with
  | EmptyString => [EmptyString]
  | String a t =>
      if Ascii.eqb a c then EmptyString :: split c t
      else match split c t with
           | [] => [String a EmptyString]
           | piece :: pieces => String a piece :: pieces
           end
  end.

(** Truthiness of a string: every string but the empty one. *)
Definition truthy (s : string) : bool :=
  match s with
  | EmptyString => false
  | String _ _ => true
  end.

(** [pieces.filter(Boolean)] on an array of strings. *)
Definition filter_Boolean (pieces : list string) : list string :=
  List.filter truthy pieces.

(** [[...new Set(xs)]]: a set iterates in insertion order, so every
    address stays at its first occurrence. *)
Fixpoint set_spread (xs : list string) : list string :=
  match xs with
  | [] => []
  | x :: rest => x :: List.filter (fun y => negb (String.eqb y x)) (set_spread rest)
  end.

(** ** JavaScript values received from a backend *)

(** The value of the [podId] field of a response body.  The program
    reads such a value in two ways only: it compares it with a string by
    [===], and it calls [toString] on it.  A number is therefore given by
    what [Number.prototype.toString] prints for it (["7"], ["0.5"],
    ["1e+21"]); [VObject] stands for any object or array and carries what
    calling its [toString] yields, [None] when that call throws (the
    field [toString] was itself overwritten by data). *)
Inductive jsval :=
  | VUndefined
  | VNull
  | VBool (b : bool)
  | VNum (print : string)
  | VStr (s : string)
  | VObject (to_string : option string).

(** [res.data] as axios delivers it: absent, [null], a primitive (a body
    that is not a JSON object), or an object with its [podId] field
    ([VUndefined] when the object has no such field). *)
Inductive jsdata :=
  | DUndefined
  | DNull
  | DPrimitive
  | DObject (podId : jsval).

(** ** The world outside the process *)

Inductive dns_outcome :=
  | DnsResolved (addresses : list string)
  | DnsRejected.

Inductive http_outcome :=
  | HttpOk (data : jsdata)
  | HttpFailed.

(** One run's environment: what the resolver answers for a hostname,
    what a GET of a URL with a timeout yields, and what [Date.now()]
    reads when the cache is consulted and when it is written. *)
Record world := World {
  resolve4 : string -> dns_outcome;
  resolve6 : string -> dns_outcome;
  axios_get : string -> Z -> http_outcome;
  now_at_lookup : Z;
  now_at_store : Z
}.

(** [process.env]: the two variables of the backend pool. *)
Record env := Env {
  env_COLYSEUS_INTERNAL_URL : option string;
  env_COLYSEUS_PORT : option string
}.

(** [process.env.COLYSEUS_PORT || 2567], as it prints in a template. *)
Definition COLYSEUS_PORT (e : env) : string :=
  match env_COLYSEUS_PORT e with
  | Some p => if truthy p then p else "2567"
  | None => "2567"
  end.

(** ** Process state and effects *)

(** A value of [POD_CACHE]. *)
Record cache_entry := CacheEntry {
  ip : string;
  expiresAt : Z
}.

(** Calls that leave the process. *)
Inductive io_event :=
  | IoResolve4 (hostname : string)
  | IoResolve6 (hostname : string)
  | IoGet (target : string) (timeout : Z).

(** Lines written to the console, by the tag the source prints. *)
Inductive log_line :=
  | LogCacheHit (podId address : string)
  | LogCacheMiss (podId : string)
  | LogDns (addresses : list string)
  | LogDnsError (message : string)
  | LogNoIps (hostname : option string)
  | LogUnreachable (address : string)
  | LogDiscovered (podId address : string)
  | LogNotFound (podId : string)
  | LogHealth (addresses : list string)
  | LogHealthDnsError (message : string)
  | LogHealthFail (failed total : nat)
  | LogHttp (method url : string) (podId : option string)
  | LogFail504 (podId : string)
  | LogWsUpgrade (url : string) (podId : option string)
  | LogWsRejectNoPodId
  | LogWsRejectNotFound (podId : string).

Record proc := Proc {
  POD_CACHE : gmap string cache_entry;
  io : list io_event;
  console : list log_line
}.

(** How a piece of code completes: with a value, or by throwing (for an
    async function: its promise fulfils or rejects). *)
Inductive completion (A : Type) :=
  | Normal (value : A)
  | Thrown (message : string).
Arguments Normal {A} value.
Arguments Thrown {A} message.

(** Code that runs against the process state. *)
Definition JS (A : Type) : Type := proc -> completion A * proc.

#[global] Instance JS_ret : MRet JS := fun A a s => (Normal a, s).
#[global] Instance JS_bind : MBind JS := fun A B k m s =>
  match m s with
  | (Normal a, s') => k a s'
  | (Thrown msg, s') => (Thrown msg, s')
  end.

Definition throw {A} (message : string) : JS A :=
  fun s => (Thrown message, s).

(** An expression that touches no state, and may throw. *)
Definition eval {A} (c : completion A) : JS A :=
  fun s => (c, s).

(** [try { body } catch (err) { handler(err.message) }]. *)
Definition try_catch {A} (body : JS A) (handler : string -> JS A) : JS A :=
  fun s =>
    match body s with
    | (Normal a, s') => (Normal a, s')
    | (Thrown msg, s') => handler msg s'
    end.

Definition cache_get (podId : string) : JS (option cache_entry) :=
  fun s => (Normal (POD_CACHE s !! podId), s).

Definition cache_set (podId : string) (entry : cache_entry) : JS unit :=
  fun s => (Normal tt, Proc (<[podId := entry]> (POD_CACHE s)) (io s) (console s)).

Definition perform (ev : io_event) : JS unit :=
  fun s => (Normal tt, Proc (POD_CACHE s) (io s ++ [ev]) (console s)).

Definition log (line : log_line) : JS unit :=
  fun s => (Normal tt, Proc (POD_CACHE s) (io s) (console s ++ [line])).

(** The outcome of one promise under [Promise.allSettled]. *)
Inductive settled (A : Type) :=
  | Fulfilled (value : A)
  | Rejected (reason : string).
Arguments Fulfilled {A} value.
Arguments Rejected {A} reason.

Definition settle {A} (task : JS A) : JS (settled A) :=
  fun s =>
    match task s with
    | (Normal a, s') => (Normal (Fulfilled a), s')
    | (Thrown msg, s') => (Normal (Rejected msg), s')
    end.

(** [Promise.allSettled(xs.map(task))]: the tasks are started in array
    order and the outcomes come back in array order, whatever the order
    of completion. *)
Fixpoint allSettled {A} (task : string -> JS A) (xs : list string)
  : JS (list (settled A)) :=
  match xs with
  | [] => mret []
  | x :: rest =>
      r ← settle (task x);
      rs ← allSettled task rest;
      mret (r :: rs)
  end.

(** [dns.resolve4(hostname)] and [dns.resolve6(hostname)] of the promises
    API.  The hostname is checked before any promise is made: when the
    environment variable is unset the call itself throws (the error is
    named here by its code); otherwise the query goes out and its promise
    resolves or rejects. *)
Definition dns_resolve4 (w : world) (hostname : option string) : JS dns_outcome :=
  match hostname with
  | None => throw "ERR_INVALID_ARG_TYPE"
  | Some h => perform (IoResolve4 h);; mret (resolve4 w h)
  end.

Definition dns_resolve6 (w : world) (hostname : option string) : JS dns_outcome :=
  match hostname with
  | None => throw "ERR_INVALID_ARG_TYPE"
  | Some h => perform (IoResolve6 h);; mret (resolve6 w h)
  end.

(** [promise.catch(() => [])] on a DNS query. *)
Definition catch_empty (o : dns_outcome) : list string :=
  match o with
  | DnsResolved addresses => addresses
  | DnsRejected => []
  end.

(** [await axios.get(target, { timeout })], giving [res.data]; a request
    that times out, is refused or is answered with an error status
    throws. *)
Definition get (w : world) (target : string) (timeout : Z) : JS jsdata :=
  perform (IoGet target timeout);;
  match axios_get w target timeout with
  | HttpOk data => mret data
  | HttpFailed => throw "request failed"
  end.

(** [data.podId]: a property read throws on [undefined] and [null]. *)
Definition member_podId (data : jsdata) : completion jsval :=
  match data with
  | DUndefined | DNull => Thrown "Cannot read properties of undefined"
  | DPrimitive => Normal VUndefined
  | DObject v => Normal v
  end.

(** [data?.podId]. *)
Definition optional_podId (data : jsdata) : jsval :=
  match data with
  | DUndefined | DNull | DPrimitive => VUndefined
  | DObject v => v
  end.

(** [v?.toString()]: [None] is [undefined]. *)
Definition optional_toString (v : jsval) : completion (option string) :=
  match v with
  | VUndefined | VNull => Normal None
  | VBool b => Normal (Some (if b then "true" else "false"))
  | VNum print => Normal (Some print)
  | VStr s => Normal (Some s)
  | VObject (Some s) => Normal (Some s)
  | VObject None => Thrown "toString is not a function"
  end.

(** [v === podId] for a string [podId]. *)
Definition strict_eq (v : jsval) (podId : string) : bool :=
  match v with
  | VStr s => String.eqb s podId
  | _ => false
  end.

(** The cache entry when [cached && cached.expiresAt > Date.now()]. *)
Definition valid_entry (now : Z) (cached : option cache_entry) : option cache_entry :=
  match cached with
  | Some c => if Z.ltb now (expiresAt c) then Some c else None
  | None => None
  end.

(** A value that may be [undefined] or [null], when it is truthy. *)
Definition present (v : option string) : option string :=
  match v with
  | Some s => if truthy s then Some s else None
  | None => None
  end.

(** ** Requests and what a handler does with them *)

Record request := Request {
  method : string;
  url : string
}.

(** An entry of the health report: [{ ip, podId }]. *)
Record identified := Identified {
  identified_ip : string;
  identified_podId : string
}.

(** The one thing a handler does to its connection: write a status and a
    text body, write a status and the health report
    [{ status, reason, pods }], hand the request to the proxy engine with
    a target (and, for an upgrade, the rewritten [Host] header), or
    destroy the socket. *)
Inductive action :=
  | Respond (status : Z) (body : string)
  | RespondHealth (status : Z) (state : string) (reason : option string)
                  (pods : list identified)
  | ProxyWeb (target : string)
  | ProxyWs (target : string) (host_header : option string)
  | SocketDestroy.

(** A response whose head was never written goes out with the default
    status. *)
Definition default_statusCode : Z := 200.

(** ** The minimal variant *)

Module Minimal.
Section Program.
Context (e : env) (w : world).

Definition COLYSEUS_URL : option string := env_COLYSEUS_INTERNAL_URL e.

(** The cache lifetime, in the milliseconds of [Date.now()]. *)
Definition TTL : Z := 15000.

(** What one probe hands over: [{ ip, podId: res.data.podId }]. *)
Record probed := Probed {
  probed_ip : string;
  probed_podId : jsval
}.

(** The probe URL: the address goes into the template as it is. *)
Definition probe_url (ip : string) : string :=
  "http://" +:+ ip +:+ ":" +:+ COLYSEUS_PORT e +:+ "/podid".

(** [axios.get(...).then(res => ({ ip, podId })).catch(() => null)]. *)
Definition probe (ip : string) : JS (option probed) :=
  try_catch
    (data ← get w (probe_url ip) 2500;
     v ← eval (member_podId data);
     mret (Some (Probed ip v)))
    (fun _ => mret None).

(** The address of a result that passes the test of the loop:
    [result.status === 'fulfilled' && result.value &&
     result.value.podId === podId]. *)
Definition selected (podId : string) (result : settled (option probed))
  : option string :=
  match result with
  | Fulfilled (Some value) =>
      if strict_eq (probed_podId value) podId then Some (probed_ip value) else None
  | Fulfilled None => None
  | Rejected _ => None
  end.

(** The loop over the results, with what follows it. *)
Fixpoint scan (podId : string) (results : list (settled (option probed)))
  : JS (option string) :=
  match results with
  | [] => mret None
  | result :: rest =>
      match selected podId result with
      | Some ip =>
          cache_set podId (CacheEntry ip (now_at_store w + TTL));;
          mret (Some ip)
      | None => scan podId rest
      end
  end.

Definition getIpForPod (podId : string) : JS (option string) :=
  cached ← cache_get podId;
  match valid_entry (now_at_lookup w) cached with
  | Some c => mret (Some (ip c))
  | None =>
      ips4 ← dns_resolve4 w COLYSEUS_URL;
      ips6 ← dns_resolve6 w COLYSEUS_URL;
      let allIps := set_spread (catch_empty ips4 ++ catch_empty ips6) in
      results ← allSettled probe allIps;
      scan podId results
  end.

(** [req.url.split('/')[1]]. *)
Definition url_podId (req : request) : option string :=
  split "/" (url req) !! 1%nat.

(** The request handler.  Its first answer ends the response without
    writing a head. *)
Definition server_request (req : request) : JS action :=
  match present (url_podId req) with
  | None => mret (Respond default_statusCode "Bad request")
  | Some podId =>
      ip ← getIpForPod podId;
      match present ip with
      | None => mret (Respond 404 "Pod not found or unhealthy")
      | Some ip =>
          mret (ProxyWeb ("http://" +:+ ip +:+ ":" +:+ COLYSEUS_PORT e))
      end
  end.

(** The upgrade handler. *)
Definition server_upgrade (req : request) : JS action :=
  match present (url_podId req) with
  | None => mret SocketDestroy
  | Some podId =>
      ip ← getIpForPod podId;
      match present ip with
      | None => mret SocketDestroy
      | Some ip =>
          mret (ProxyWs ("ws://" +:+ ip +:+ ":" +:+ COLYSEUS_PORT e) None)
      end
  end.
End Program.
End Minimal.

(** ** The full variant *)

Module Full.
Section Program.
Context (e : env) (w : world).

(** [url.parse(u).pathname] of Node's legacy parser, for a target that
    the parser takes: the path of the request target, [None] when it has
    none.  A target on which [url.parse] itself throws (userinfo that
    cannot be decoded) is not covered: the handlers below describe the
    requests whose target parses. *)
Context (url_pathname : string -> option string).

Definition COLYSEUS_INTERNAL_DNS : option string := env_COLYSEUS_INTERNAL_URL e.

(** The cache lifetime, in the milliseconds of [Date.now()]. *)
Definition TTL : Z := 18000.

(** The expression [ip.includes(':') ? `[${ip}]` : ip], which the
    source writes out wherever it composes a host. *)
Definition host_of (ip : string) : string :=
  if includes ":" ip then "[" +:+ ip +:+ "]" else ip.

Definition probe_url (ip : string) : string :=
  "http://" +:+ host_of ip +:+ ":" +:+ COLYSEUS_PORT e +:+ "/podid".

(** The two queries under [Promise.all], each with its [catch], and
    the deduplicated union of their answers. *)
Definition resolve_all : JS (list string) :=
  ipv4 ← dns_resolve4 w COLYSEUS_INTERNAL_DNS;
  ipv6 ← dns_resolve6 w COLYSEUS_INTERNAL_DNS;
  mret (set_spread (catch_empty ipv4 ++ catch_empty ipv6)).

(** What one discovery probe hands over:
    [{ ip, podId: res.data.podId?.toString() }]. *)
Record probed := Probed {
  probed_ip : string;
  probed_podId : option string
}.

(** One discovery probe.  The console lines of the probes are kept in
    candidate order. *)
Definition probe (ip : string) : JS (option probed) :=
  let target := probe_url ip in
  try_catch
    (data ← get w target 3000;
     v ← eval (member_podId data);
     podId ← eval (optional_toString v);
     mret (Some (Probed ip podId)))
    (fun _ => log (LogUnreachable ip);; mret None).

(** The address of a result that passes the test of the loop:
    [result.status === 'fulfilled' && result.value &&
     result.value.podId === podId]. *)
Definition selected (podId : string) (result : settled (option probed))
  : option string :=
  match result with
  | Fulfilled (Some value) =>
      match probed_podId value with
      | Some reported =>
          if String.eqb reported podId then Some (probed_ip value) else None
      | None => None
      end
  | Fulfilled None => None
  | Rejected _ => None
  end.

(** The loop over the results, with what follows it. *)
Fixpoint scan (podId : string) (results : list (settled (option probed)))
  : JS (option string) :=
  match results with
  | [] => log (LogNotFound podId);; mret None
  | result :: rest =>
      match selected podId result with
      | Some ip =>
          cache_set podId (CacheEntry ip (now_at_store w + TTL));;
          log (LogDiscovered podId ip);;
          mret (Some ip)
      | None => scan podId rest
      end
  end.

Definition discoverAndGetIp (podId : string) : JS (option string) :=
  cached ← cache_get podId;
  match valid_entry (now_at_lookup w) cached with
  | Some c =>
      log (LogCacheHit podId (ip c));;
      mret (Some (ip c))
  | None =>
      log (LogCacheMiss podId);;
      resolved ← try_catch
        (ips ← resolve_all;
         log (LogDns ips);;
         mret (Some ips))
        (fun message => log (LogDnsError message);; mret None);
      match resolved with
      | None => mret None
      | Some [] =>
          log (LogNoIps COLYSEUS_INTERNAL_DNS);;
          mret None
      | Some ips =>
          results ← allSettled probe ips;
          scan podId results
      end
  end.

(** What [checkAllPodsHavePodId] returns: [{ ok: true, pods }] or
    [{ ok: false, reason }], the latter with [success] in one case. *)
Inductive health :=
  | HealthOk (pods : list identified)
  | Unhealthy (reason : string) (success : option (list identified)).

Definition ok (h : health) : bool :=
  match h with
  | HealthOk _ => true
  | Unhealthy _ _ => false
  end.

(** One health probe: it throws where the discovery probe gives
    [null], and also when the identity is an empty string. *)
Definition health_probe (ip : string) : JS identified :=
  let target := probe_url ip in
  data ← get w target 2000;
  podId ← eval (optional_toString (optional_podId data));
  match present podId with
  | None => throw "podId missing"
  | Some podId => mret (Identified ip podId)
  end.

Definition is_rejected {A} (r : settled A) : bool :=
  match r with
  | Rejected _ => true
  | Fulfilled _ => false
  end.

(** [results.filter(r => r.status === 'fulfilled').map(r => r.value)]. *)
Fixpoint fulfilled_values {A} (results : list (settled A)) : list A :=
  match results with
  | [] => []
  | Fulfilled v :: rest => v :: fulfilled_values rest
  | Rejected _ :: rest => fulfilled_values rest
  end.

Definition checkAllPodsHavePodId : JS health :=
  resolved ← try_catch
    (ips ← resolve_all;
     log (LogHealth ips);;
     mret (Some ips))
    (fun message => log (LogHealthDnsError message);; mret None);
  match resolved with
  | None => mret (Unhealthy "dns_error" None)
  | Some [] => mret (Unhealthy "no_ips" None)
  | Some ips =>
      results ← allSettled health_probe ips;
      let failed := List.filter is_rejected results in
      let success := fulfilled_values results in
      if (0 <? length failed)%nat then
        log (LogHealthFail (length failed) (length ips));;
        mret (Unhealthy "some_pods_unhealthy" (Some success))
      else mret (HealthOk success)
  end.

(** [parsed.pathname?.split('/').filter(Boolean) || []], then its
    element 0. *)
Definition url_podId (req : request) : option string :=
  let pathParts :=
    match url_pathname (url req) with
    | Some pathname => filter_Boolean (split "/" pathname)
    | None => []
    end in
  head pathParts.

Definition is_health_request (req : request) : bool :=
  String.eqb (method req) "GET" && String.eqb (url req) "/health".

(** The request handler. *)
Definition server_request (req : request) : JS action :=
  if is_health_request req then
    result ← checkAllPodsHavePodId;
    match result with
    | HealthOk pods => mret (RespondHealth 200 "ok" None pods)
    | Unhealthy reason success =>
        mret (RespondHealth 503 "unhealthy" (Some reason) (default [] success))
    end
  else
    let podId := url_podId req in
    log (LogHttp (method req) (url req) podId);;
    match present podId with
    | None => mret (Respond 400 "Bad Request: podId missing in path")
    | Some podId =>
        targetIp ← discoverAndGetIp podId;
        match present targetIp with
        | None =>
            log (LogFail504 podId);;
            mret (Respond 504 "Pod not found or all replicas unhealthy")
        | Some targetIp =>
            mret (ProxyWeb ("http://" +:+ host_of targetIp +:+ ":" +:+ COLYSEUS_PORT e))
        end
    end.

(** The upgrade handler, with the [Host] header it writes. *)
Definition server_upgrade (req : request) : JS action :=
  let podId := url_podId req in
  log (LogWsUpgrade (url req) podId);;
  match present podId with
  | None =>
      log LogWsRejectNoPodId;;
      mret SocketDestroy
  | Some podId =>
      targetIp ← discoverAndGetIp podId;
      match present targetIp with
      | None =>
          log (LogWsRejectNotFound podId);;
          mret SocketDestroy
      | Some targetIp =>
          let target := "ws://" +:+ host_of targetIp +:+ ":" +:+ COLYSEUS_PORT e in
          let host :=
            if includes ":" targetIp
            then "[" +:+ targetIp +:+ "]:" +:+ COLYSEUS_PORT e
            else targetIp +:+ ":" +:+ COLYSEUS_PORT e in
          mret (ProxyWs target (Some host))
      end
  end.
End Program.
End Full.

(** [url.parse(u).pathname] on a request target in origin form: what
    stands before the first [?] or [#], and [null] when that is empty. *)
Fixpoint before_query (u : string) : string :=
  match u with
  | EmptyString => EmptyString
  | String a t =>
      if Ascii.eqb a "?" || Ascii.eqb a "#" then EmptyString
      else String a (before_query t)
  end.

Definition origin_form_pathname (u : string) : option string :=
  present (Some (before_query u)).

(** ** Observing a run *)

(** The process at start: an empty cache, nothing sent, nothing logged. *)
Definition initial : proc := Proc ∅ [] [].

(** A state with the calls and console lines of [d] added after its
    own; the cache is the one of [s]. *)
Definition extend (s d : proc) : proc :=
  Proc (POD_CACHE s) (io s ++ io d) (console s ++ console d).

(** Code that neither reads nor writes the cache: from any state it
    completes as it does from the initial one, adding the same calls
    and console lines. *)
Definition cache_free {A} (task : JS A) : Prop :=
  forall s, task s = ((task initial).1, extend s (task initial).2).

(** What [Promise.allSettled] records for a task. *)
Definition outcome_of {A} (task : JS A) : settled A :=
  match (task initial).1 with
  | Normal a => Fulfilled a
  | Thrown msg => Rejected msg
  end.

(** The candidate addresses of a round: the deduplicated union that the
    enumeration yields, and none when the queries cannot be issued. *)
Definition candidates (e : env) (w : world) : list string :=
  match (Full.resolve_all e w initial).1 with
  | Normal ips => ips
  | Thrown _ => []
  end.

(** A candidate reports the identity [podId] to a discovery probe when
    the loop's test accepts what its probe settles with. *)
Definition full_identifies (e : env) (w : world) (podId ip : string) : bool :=
  bool_decide (is_Some (Full.selected podId (outcome_of (Full.probe e w ip)))).

Definition minimal_identifies (e : env) (w : world) (podId ip : string) : bool :=
  bool_decide (is_Some (Minimal.selected podId (outcome_of (Minimal.probe e w ip)))).

(** A candidate returns a parsable identity when its health probe
    fulfils; this is the entry it then contributes to the report. *)
Definition parsable_identity (e : env) (w : world) (ip : string) : option identified :=
  match outcome_of (Full.health_probe e w ip) with
  | Fulfilled entry => Some entry
  | Rejected _ => None
  end.

(** A state without valid entry for [podId] at lookup time. *)
Definition cache_miss (w : world) (podId : string) (s : proc) : Prop :=
  valid_entry (now_at_lookup w) (POD_CACHE s !! podId) = None.

(** The state in which the full variant starts its probes. *)
Definition after_enumeration (e : env) (w : world) (podId h : string) (s : proc) : proc :=
  Proc (POD_CACHE s) (io s ++ [IoResolve4 h; IoResolve6 h])
       (console s ++ [LogCacheMiss podId; LogDns (candidates e w)]).

(** A state after one more console line. *)
Definition after_log (s : proc) (line : log_line) : proc :=
  Proc (POD_CACHE s) (io s) (console s ++ [line]).

(** [Date.now()] counts milliseconds. *)
Definition second : Z := 1000.

(** ** The world, as a client of the backends sees it *)

(** What [v.toString()] gives, for a value on which the call returns. *)
Inductive prints : jsval -> string -> Prop :=
  | prints_true : prints (VBool true) "true"
  | prints_false : prints (VBool false) "false"
  | prints_number print : prints (VNum print) print
  | prints_string s : prints (VStr s) s
  | prints_object s : prints (VObject (Some s)) s.

(** The address [x] is among the answers of a query. *)
Definition resolved (o : dns_outcome) (x : string) : Prop :=
  exists addresses, o = DnsResolved addresses /\ x ∈ addresses.

(** The address [x] is resolved for the configured hostname, by the IPv4
    or by the IPv6 query. *)
Definition resolves (e : env) (w : world) (x : string) : Prop :=
  exists h,
    env_COLYSEUS_INTERNAL_URL e = Some h
    /\ (resolved (resolve4 w h) x \/ resolved (resolve6 w h) x).

(** The backend at [x] reports the identity [podId]: asked the way the
    full discovery does, it answers with an object whose podId prints as
    [podId]; asked the way the minimal discovery does, it answers with an
    object whose podId is the string [podId]; asked the way the health
    check does, it answers with an object whose podId prints as [podId],
    and [podId] is not empty. *)
Definition full_reports (e : env) (w : world) (x podId : string) : Prop :=
  exists v,
    axios_get w (Full.probe_url e x) 3000 = HttpOk (DObject v) /\ prints v podId.

Definition minimal_reports (e : env) (w : world) (x podId : string) : Prop :=
  axios_get w (Minimal.probe_url e x) 2500 = HttpOk (DObject (VStr podId)).

Definition health_reports (e : env) (w : world) (x podId : string) : Prop :=
  (exists v,
     axios_get w (Full.probe_url e x) 2000 = HttpOk (DObject v) /\ prints v podId)
  /\ podId <> EmptyString.

(** [set.add(x)] on a set kept in insertion order, and the set built
    from an array: an address already present keeps its place. *)
Definition set_add (seen : list string) (x : string) : list string :=
  if decide (x ∈ seen) then seen else seen ++ [x].

Definition set_of (xs : list string) : list string := foldl set_add [] xs.

(** ** The calls of a round *)

(** The queries of one enumeration; none can be issued without a
    hostname. *)
Definition dns_calls (e : env) : list io_event :=
  match env_COLYSEUS_INTERNAL_URL e with
  | Some h => [IoResolve4 h; IoResolve6 h]
  | None => []
  end.

(** The outgoing calls of one discovery round of the full variant, of the
    minimal variant, and of one health check: the two queries, then one
    GET per candidate, in candidate order. *)
Definition full_discovery_calls (e : env) (w : world) : list io_event :=
  dns_calls e ++ map (fun x => IoGet (Full.probe_url e x) 3000) (candidates e w).

Definition minimal_discovery_calls (e : env) (w : world) : list io_event :=
  dns_calls e ++ map (fun x => IoGet (Minimal.probe_url e x) 2500) (candidates e w).

Definition health_calls (e : env) (w : world) : list io_event :=
  dns_calls e ++ map (fun x => IoGet (Full.probe_url e x) 2000) (candidates e w).

(** A string made of the character [c] only. *)
Fixpoint only (c : ascii) (s : string) : bool :=
  match s with
  | EmptyString => true
  | String a t => Ascii.eqb a c && only c t
  end.

(** ** Sample data *)

Definition sample_env : env := Env (Some "colyseus.internal") None.

(** Two backends and one dead address; ["10.0.0.2"] is listed by both
    families. *)
Definition sample_world : world :=
  World
    (fun _ => DnsResolved ["10.0.0.1"; "10.0.0.2"])
    (fun _ => DnsResolved ["10.0.0.2"; "fd00::3"])
    (fun target _ =>
       if String.eqb target "http://10.0.0.1:2567/podid" then HttpOk (DObject (VStr "alpha"))
       else if String.eqb target "http://10.0.0.2:2567/podid" then HttpOk (DObject (VStr "beta"))
       else HttpFailed)
    1000 1200.

(** The same pool when both backends claim to be ["alpha"]. *)
Definition twin_world : world :=
  World
    (fun _ => DnsResolved ["10.0.0.1"; "10.0.0.2"])
    (fun _ => DnsRejected)
    (fun target _ =>
       if String.eqb target "http://10.0.0.1:2567/podid" then HttpOk (DObject (VStr "alpha"))
       else if String.eqb target "http://10.0.0.2:2567/podid" then HttpOk (DObject (VStr "alpha"))
       else HttpFailed)
    1000 1200.

(** Three backends, the first of another identity and the two behind it
    both claiming to be ["alpha"]. *)
Definition triple_world : world :=
  World
    (fun _ => DnsResolved ["10.0.0.1"; "10.0.0.2"; "10.0.0.3"])
    (fun _ => DnsRejected)
    (fun target _ =>
       if String.eqb target "http://10.0.0.1:2567/podid" then HttpOk (DObject (VStr "zeta"))
       else if String.eqb target "http://10.0.0.2:2567/podid" then HttpOk (DObject (VStr "alpha"))
       else if String.eqb target "http://10.0.0.3:2567/podid" then HttpOk (DObject (VStr "alpha"))
       else HttpFailed)
    1000 1200.

(** A pool whose name resolves to nothing. *)
Definition empty_world : world :=
  World (fun _ => DnsResolved []) (fun _ => DnsRejected) (fun _ _ => HttpFailed) 1000 1200.

(** A pool in which everything fails in its own way: the IPv4 query is
    rejected, and the four addresses of the IPv6 answer time out, send
    no body, send [null] for the podId, and send an object whose
    [toString] is not a function. *)
Definition faulty_world : world :=
  World
    (fun _ => DnsRejected)
    (fun _ => DnsResolved ["fd00::1"; "fd00::2"; "fd00::3"; "fd00::4"])
    (fun target _ =>
       if String.eqb target "http://[fd00::2]:2567/podid" then HttpOk DUndefined
       else if String.eqb target "http://[fd00::3]:2567/podid" then HttpOk (DObject VNull)
       else if String.eqb target "http://[fd00::4]:2567/podid" then HttpOk (DObject (VObject None))
       else HttpFailed)
    1000 1200.

(** A process that found ["beta"] earlier, at an address of its own. *)
Definition warm_cache : proc :=
  Proc {[ "beta" := CacheEntry "10.0.0.9" 5000 ]} [] [].

(** A process that found ["delta"] at an IPv6 address. *)
Definition ipv6_cache : proc :=
  Proc {[ "delta" := CacheEntry "fd00::3" 5000 ]} [] [].

(** The sample pool at a later time. *)
Definition later_world (now : Z) : world :=
  World (resolve4 sample_world) (resolve6 sample_world) (axios_get sample_world)
        now (now + 200).

(** A backend that reports its identity as the number 7, next to one
    that reports the string ["seven"]. *)
Definition numeric_world : world :=
  World
    (fun _ => DnsResolved ["10.0.0.6"; "10.0.0.7"])
    (fun _ => DnsRejected)
    (fun target _ =>
       if String.eqb target "http://10.0.0.6:2567/podid" then HttpOk (DObject (VStr "seven"))
       else if String.eqb target "http://10.0.0.7:2567/podid" then HttpOk (DObject (VNum "7"))
       else HttpFailed)
    1000 1200.

(** ** Cache-free code *)

Lemma extend_initial s : extend s initial = s.
Proof. destruct s; unfold extend; simpl. by rewrite !app_nil_r. Qed.

Lemma extend_assoc s d1 d2 : extend (extend s d1) d2 = extend s (extend d1 d2).
Proof. unfold extend; simpl. by rewrite !app_assoc. Qed.

Lemma cache_free_ret {A} (a : A) : cache_free (mret a).
Proof. intros s. cbn. by rewrite extend_initial. Qed.

Lemma cache_free_throw {A} msg : cache_free (@throw A msg).
Proof. intros s. cbn. by rewrite extend_initial. Qed.

Lemma cache_free_perform ev : cache_free (perform ev).
Proof. intros s. unfold perform, extend; simpl. by rewrite app_nil_r. Qed.

Lemma cache_free_log line : cache_free (log line).
Proof. intros s. unfold log, extend; simpl. by rewrite app_nil_r. Qed.

Lemma cache_free_bind {A B} (m : JS A) (k : A -> JS B) :
  cache_free m -> (forall a, cache_free (k a)) -> cache_free (m ≫= k).
Proof.
  intros Hm Hk s. unfold mbind, JS_bind.
  rewrite (Hm s). destruct (m initial) as [[a|msg] d] eqn:E; simpl.
  - rewrite (Hk a (extend s d)), (Hk a d). simpl. by rewrite extend_assoc.
  - done.
Qed.

Lemma cache_free_try_catch {A} (body : JS A) handler :
  cache_free body -> (forall msg, cache_free (handler msg)) ->
  cache_free (try_catch body handler).
Proof.
  intros Hb Hh s. unfold try_catch.
  rewrite (Hb s). destruct (body initial) as [[a|msg] d] eqn:E; simpl.
  - done.
  - rewrite (Hh msg (extend s d)), (Hh msg d). simpl. by rewrite extend_assoc.
Qed.

Lemma cache_free_settle {A} (task : JS A) :
  cache_free task -> cache_free (settle task).
Proof.
  intros Ht s. unfold settle.
  rewrite (Ht s). by destruct (task initial) as [[a|msg] d].
Qed.

Lemma settle_value {A} (task : JS A) :
  (settle task initial).1 = Normal (outcome_of task).
Proof.
  unfold settle, outcome_of. by destruct (task initial) as [[a|msg] d].
Qed.

Lemma cache_free_allSettled {A} (task : string -> JS A) xs :
  (forall x, cache_free (task x)) -> cache_free (allSettled task xs).
Proof.
  intros Ht. induction xs as [|x xs IH]; simpl.
  - apply cache_free_ret.
  - apply cache_free_bind; [by apply cache_free_settle|].
    intros r. apply cache_free_bind; [done|]. intros rs. apply cache_free_ret.
Qed.

(** The outcomes come back in array order, one per task. *)
Lemma allSettled_value {A} (task : string -> JS A) xs :
  (forall x, cache_free (task x)) ->
  (allSettled task xs initial).1 = Normal (map (fun x => outcome_of (task x)) xs).
Proof.
  intros Ht. induction xs as [|x xs IH]; simpl; [done|].
  unfold mbind, JS_bind.
  pose proof (settle_value (task x)) as Hv.
  destruct (settle (task x) initial) as [r d] eqn:E. simpl in Hv. subst r.
  pose proof (cache_free_allSettled task xs Ht d) as Hd. rewrite Hd, IH. done.
Qed.

Lemma allSettled_run {A} (task : string -> JS A) xs s :
  (forall x, cache_free (task x)) ->
  exists d, allSettled task xs s
            = (Normal (map (fun x => outcome_of (task x)) xs), extend s d).
Proof.
  intros Ht. exists (allSettled task xs initial).2.
  rewrite (cache_free_allSettled task xs Ht s). by rewrite allSettled_value.
Qed.

Create HintDb frame.

#[export] Hint Resolve cache_free_ret cache_free_throw cache_free_perform
  cache_free_log cache_free_settle : frame.

(** Splits a composed task along its binds, handlers and matches. *)
Ltac frame :=
  repeat first
    [ apply cache_free_bind; [|intros ?]
    | apply cache_free_try_catch; [|intros ?]
    | solve [auto with frame]
    | match goal with
      | |- cache_free (match ?x with _ => _ end) => destruct x
      end ].

Lemma cache_free_get w target timeout : cache_free (get w target timeout).
Proof. unfold get. frame. Qed.

Lemma cache_free_eval {A} (c : completion A) : cache_free (eval c).
Proof. intros s. unfold eval. simpl. by rewrite extend_initial. Qed.

Lemma cache_free_dns_resolve4 w hostname : cache_free (dns_resolve4 w hostname).
Proof. unfold dns_resolve4. frame. Qed.

Lemma cache_free_dns_resolve6 w hostname : cache_free (dns_resolve6 w hostname).
Proof. unfold dns_resolve6. frame. Qed.

#[export] Hint Resolve cache_free_get cache_free_eval cache_free_dns_resolve4
  cache_free_dns_resolve6 : frame.

Lemma cache_free_resolve_all e w : cache_free (Full.resolve_all e w).
Proof. unfold Full.resolve_all. frame. Qed.

Lemma cache_free_full_probe e w x : cache_free (Full.probe e w x).
Proof. unfold Full.probe. frame. Qed.

Lemma cache_free_health_probe e w x : cache_free (Full.health_probe e w x).
Proof. unfold Full.health_probe. frame. Qed.

Lemma cache_free_minimal_probe e w x : cache_free (Minimal.probe e w x).
Proof. unfold Minimal.probe. frame. Qed.

(** Runs the primitive steps of a task at the head of the goal. *)
Ltac run :=
  unfold mbind, mret, JS_bind, JS_ret, try_catch, settle, cache_get, cache_set,
    perform, log, throw, eval, get, dns_resolve4, dns_resolve6 in *; simpl in *.

(** ** The enumeration *)

Lemma resolve_all_run e w s :
  Full.resolve_all e w s =
  match env_COLYSEUS_INTERNAL_URL e with
  | Some h =>
      (Normal (candidates e w),
       Proc (POD_CACHE s) (io s ++ [IoResolve4 h; IoResolve6 h]) (console s))
  | None => (Thrown "ERR_INVALID_ARG_TYPE", s)
  end.
Proof.
  unfold candidates, Full.resolve_all, Full.COLYSEUS_INTERNAL_DNS.
  destruct (env_COLYSEUS_INTERNAL_URL e) as [h|]; [|done].
  run. by rewrite <- app_assoc.
Qed.

Lemma candidates_unset e w :
  env_COLYSEUS_INTERNAL_URL e = None -> candidates e w = [].
Proof.
  intros H. unfold candidates, Full.resolve_all, Full.COLYSEUS_INTERNAL_DNS.
  by rewrite H.
Qed.

Lemma candidates_set e w h :
  env_COLYSEUS_INTERNAL_URL e = Some h ->
  candidates e w = set_spread (catch_empty (resolve4 w h) ++ catch_empty (resolve6 w h)).
Proof.
  intros H. unfold candidates, Full.resolve_all, Full.COLYSEUS_INTERNAL_DNS.
  by rewrite H.
Qed.

Lemma filter_elem {A} (f : A -> bool) (x : A) xs :
  x ∈ List.filter f xs <-> x ∈ xs /\ f x = true.
Proof. rewrite !list_elem_of_In. apply filter_In. Qed.

Lemma filter_NoDup {A} (f : A -> bool) xs : NoDup xs -> NoDup (List.filter f xs).
Proof.
  induction 1 as [|x xs Hx _ IH]; simpl; [constructor|].
  destruct (f x); [|done]. constructor; [|done].
  rewrite filter_elem. by intros [? _].
Qed.

Lemma filter_sublist {A} (f : A -> bool) xs : List.filter f xs `sublist_of` xs.
Proof.
  induction xs as [|x xs IH]; simpl; [done|].
  destruct (f x); [by apply sublist_skip|by apply sublist_cons].
Qed.

Lemma set_spread_elem x xs : x ∈ set_spread xs <-> x ∈ xs.
Proof.
  induction xs as [|y xs IH]; simpl; [done|].
  rewrite !elem_of_cons, filter_elem, IH, negb_true_iff, String.eqb_neq.
  destruct (decide (x = y)); tauto.
Qed.

Lemma set_spread_NoDup xs : NoDup (set_spread xs).
Proof.
  induction xs as [|y xs IH]; simpl; [constructor|].
  constructor; [|by apply filter_NoDup].
  rewrite filter_elem, negb_true_iff, String.eqb_neq. by intros [_ ?].
Qed.

Lemma set_spread_sublist xs : set_spread xs `sublist_of` xs.
Proof.
  induction xs as [|y xs IH]; simpl; [done|].
  apply sublist_skip. etrans; [apply filter_sublist|done].
Qed.

Lemma set_spread_head xs : head (set_spread xs) = head xs.
Proof. by destruct xs. Qed.

Lemma set_spread_snoc xs x :
  set_spread (xs ++ [x]) = set_add (set_spread xs) x.
Proof.
  induction xs as [|y xs IH]; simpl.
  - unfold set_add. by case_decide as H; [apply elem_of_nil in H|].
  - rewrite IH. unfold set_add.
    set (F := List.filter (fun z => negb (String.eqb z y)) (set_spread xs)).
    destruct (decide (x ∈ set_spread xs)) as [Hin|Hin].
    + fold F. rewrite decide_True; [done|].
      destruct (decide (x = y)) as [->|Hne]; [by left|]. right.
      apply filter_elem. split; [done|]. by apply negb_true_iff, String.eqb_neq.
    + rewrite List.filter_app. fold F. simpl.
      destruct (String.eqb_spec x y) as [->|Hne]; simpl.
      * rewrite app_nil_r. rewrite decide_True; [done|by left].
      * rewrite decide_False; [done|].
        intros [?|[? _]%filter_elem]%elem_of_cons; done.
Qed.

(** The spread of a set is the set built by adding the elements one by
    one. *)
Lemma set_spread_set_of xs : set_spread xs = set_of xs.
Proof.
  unfold set_of. induction xs as [|x xs IH] using rev_ind; [done|].
  by rewrite foldl_app, set_spread_snoc, IH.
Qed.

Lemma catch_empty_elem o x : x ∈ catch_empty o <-> resolved o x.
Proof.
  unfold resolved. destruct o as [addresses|]; simpl.
  - split; [intros; by eexists|]. intros (l & ? & ?). by simplify_eq.
  - split; [by intros ?%elem_of_nil|]. by intros (l & ? & _).
Qed.

(** The candidates are the addresses that the world resolves. *)
Lemma candidates_resolves e w x : x ∈ candidates e w <-> resolves e w x.
Proof.
  unfold resolves. destruct (env_COLYSEUS_INTERNAL_URL e) as [h|] eqn:Hh.
  - rewrite (candidates_set e w h Hh), set_spread_elem, elem_of_app, !catch_empty_elem.
    split; [intros; exists h; by split|]. intros (h' & ? & ?). by simplify_eq.
  - rewrite (candidates_unset e w Hh).
    split; [by intros ?%elem_of_nil|]. by intros (h & ? & _).
Qed.

Lemma candidates_nonempty e w : candidates e w <> [] <-> exists x, resolves e w x.
Proof.
  split.
  - destruct (candidates e w) as [|x xs] eqn:E; [done|]. intros _.
    exists x. apply candidates_resolves. rewrite E. by left.
  - intros [x Hx%candidates_resolves] E. rewrite E in Hx. by apply elem_of_nil in Hx.
Qed.

(** ** The probes *)

(** A discovery probe never rejects, and what it hands over carries the
    address it was sent to. *)
Lemma full_probe_fulfils e w x :
  exists v, outcome_of (Full.probe e w x) = Fulfilled v
            /\ forall p, v = Some p -> Full.probed_ip p = x.
Proof.
  unfold outcome_of, Full.probe. run.
  destruct (axios_get w (Full.probe_url e x) 3000) as [[| | |[| | | | |[|]]]|];
    simpl; eexists; (split; [reflexivity|]); intros p Hp; by simplify_eq.
Qed.

Lemma minimal_probe_fulfils e w x :
  exists v, outcome_of (Minimal.probe e w x) = Fulfilled v
            /\ forall p, v = Some p -> Minimal.probed_ip p = x.
Proof.
  unfold outcome_of, Minimal.probe. run.
  destruct (axios_get w (Minimal.probe_url e x) 2500) as [[| | |]|];
    simpl; eexists; (split; [reflexivity|]); intros p Hp; by simplify_eq.
Qed.

Lemma full_selected_address e w podId x a :
  Full.selected podId (outcome_of (Full.probe e w x)) = Some a -> a = x.
Proof.
  destruct (full_probe_fulfils e w x) as (v & -> & Hv). simpl.
  destruct v as [p|]; [|done]. specialize (Hv p eq_refl).
  destruct (Full.probed_podId p) as [r|]; [|done].
  destruct (String.eqb r podId); [|done]. intros. by simplify_eq.
Qed.

Lemma minimal_selected_address e w podId x a :
  Minimal.selected podId (outcome_of (Minimal.probe e w x)) = Some a -> a = x.
Proof.
  destruct (minimal_probe_fulfils e w x) as (v & -> & Hv). simpl.
  destruct v as [p|]; [|done]. specialize (Hv p eq_refl).
  destruct (strict_eq (Minimal.probed_podId p) podId); [|done].
  intros. by simplify_eq.
Qed.

Lemma full_identifies_selected e w podId x :
  full_identifies e w podId x = true <->
  Full.selected podId (outcome_of (Full.probe e w x)) = Some x.
Proof.
  unfold full_identifies. rewrite bool_decide_eq_true. split.
  - intros [a Ha]. by rewrite Ha, (full_selected_address _ _ _ _ _ Ha).
  - intros ->. by eexists.
Qed.

Lemma full_identifies_none e w podId x :
  full_identifies e w podId x = false <->
  Full.selected podId (outcome_of (Full.probe e w x)) = None.
Proof.
  unfold full_identifies. rewrite bool_decide_eq_false.
  rewrite <- eq_None_not_Some. done.
Qed.

Lemma minimal_identifies_selected e w podId x :
  minimal_identifies e w podId x = true <->
  Minimal.selected podId (outcome_of (Minimal.probe e w x)) = Some x.
Proof.
  unfold minimal_identifies. rewrite bool_decide_eq_true. split.
  - intros [a Ha]. by rewrite Ha, (minimal_selected_address _ _ _ _ _ Ha).
  - intros ->. by eexists.
Qed.

Lemma minimal_identifies_none e w podId x :
  minimal_identifies e w podId x = false <->
  Minimal.selected podId (outcome_of (Minimal.probe e w x)) = None.
Proof.
  unfold minimal_identifies. rewrite bool_decide_eq_false.
  rewrite <- eq_None_not_Some. done.
Qed.

(** In terms of the world: the minimal probe accepts a body whose
    [podId] is the very string asked for. *)
Lemma minimal_identifies_world e w podId x :
  minimal_identifies e w podId x = true <->
  axios_get w (Minimal.probe_url e x) 2500 = HttpOk (DObject (VStr podId)).
Proof.
  rewrite minimal_identifies_selected.
  unfold outcome_of, Minimal.probe. run.
  destruct (axios_get w (Minimal.probe_url e x) 2500) as [[| | |v]|]; simpl;
    try (split; [done|intros; simplify_eq]).
  unfold strict_eq. destruct v as [| | | |r|]; simpl; try (split; [done|intros; simplify_eq]).
  destruct (String.eqb_spec r podId) as [->|Hne]; split; try done.
  intros; simplify_eq.
Qed.

(** The full probe accepts a body whose [podId] prints as the string
    asked for. *)
Lemma full_identifies_world e w podId x :
  full_identifies e w podId x = true <->
  exists v, axios_get w (Full.probe_url e x) 3000 = HttpOk (DObject v)
            /\ optional_toString v = Normal (Some podId).
Proof.
  rewrite full_identifies_selected.
  unfold outcome_of, Full.probe. run.
  destruct (axios_get w (Full.probe_url e x) 3000) as [[| | |v]|]; simpl;
    try (split; [done|intros (? & ? & ?); simplify_eq]).
  destruct (optional_toString v) as [[r|]|msg] eqn:E; simpl.
  - destruct (String.eqb_spec r podId) as [->|Hne]; split; try done.
    + intros _. by exists v.
    + intros (v' & Hv & Hs). simplify_eq. congruence.
  - split; [done|]. intros (v' & Hv & Hs). simplify_eq. congruence.
  - split; [done|]. intros (v' & Hv & Hs). simplify_eq. congruence.
Qed.

(** A health probe fulfils on a body whose [podId] prints as a
    non-empty string. *)
Lemma parsable_identity_world e w x entry :
  parsable_identity e w x = Some entry <->
  exists v podId,
    axios_get w (Full.probe_url e x) 2000 = HttpOk (DObject v)
    /\ optional_toString v = Normal (Some podId)
    /\ podId <> EmptyString
    /\ entry = Identified x podId.
Proof.
  unfold parsable_identity, outcome_of, Full.health_probe. run.
  destruct (axios_get w (Full.probe_url e x) 2000) as [data|]; simpl;
    [|split; [done|intros (? & ? & ? & ?); simplify_eq]].
  destruct data as [| | |v]; simpl;
    try (split; [done|intros (? & ? & ? & ?); simplify_eq]).
  destruct (optional_toString v) as [[r|]|msg] eqn:E; simpl.
  - destruct r as [|c r]; simpl.
    + split; [done|]. intros (v' & p & Hv & Hs & Hp & _). simplify_eq. congruence.
    + split.
      * intros ?; simplify_eq. by exists v, (String c r).
      * intros (v' & p & Hv & Hs & Hp & ->). simplify_eq. congruence.
  - split; [done|]. intros (v' & p & Hv & Hs & _). simplify_eq. congruence.
  - split; [done|]. intros (v' & p & Hv & Hs & _). simplify_eq. congruence.
Qed.

(** ** Reports, read off the world *)

Lemma prints_spec v p : optional_toString v = Normal (Some p) <-> prints v p.
Proof.
  split.
  - destruct v as [| |[]|?|?|[?|]]; simpl; intros ?; simplify_eq; constructor.
  - by destruct 1.
Qed.

Lemma full_identifies_reports e w podId x :
  full_identifies e w podId x = true <-> full_reports e w x podId.
Proof.
  rewrite full_identifies_world. unfold full_reports.
  split; intros (v & Hv & Hp); exists v; (split; [done|]); by apply prints_spec.
Qed.

Lemma minimal_identifies_reports e w podId x :
  minimal_identifies e w podId x = true <-> minimal_reports e w x podId.
Proof. apply minimal_identifies_world. Qed.

Lemma full_none_report e w podId xs :
  Forall (fun z => ~ full_reports e w z podId) xs
  <-> Forall (fun z => full_identifies e w podId z = false) xs.
Proof.
  apply Forall_proper; [|done]. intros z.
  by rewrite <- full_identifies_reports, not_true_iff_false.
Qed.

Lemma minimal_none_report e w podId xs :
  Forall (fun z => ~ minimal_reports e w z podId) xs
  <-> Forall (fun z => minimal_identifies e w podId z = false) xs.
Proof.
  apply Forall_proper; [|done]. intros z.
  by rewrite <- minimal_identifies_reports, not_true_iff_false.
Qed.

Lemma parsable_health_reports e w x entry :
  parsable_identity e w x = Some entry
  <-> exists p, entry = Identified x p /\ health_reports e w x p.
Proof.
  rewrite parsable_identity_world. unfold health_reports. split.
  - intros (v & p & Hv & Hs & Hne & ->). exists p. split; [done|].
    split; [|done]. exists v. split; [done|]. by apply prints_spec.
  - intros (p & -> & (v & Hv & Hp) & Hne). exists v, p.
    split; [done|]. split; [by apply prints_spec|done].
Qed.

Lemma parsable_is_Some e w x :
  is_Some (parsable_identity e w x) <-> exists p, health_reports e w x p.
Proof.
  split.
  - intros [entry (p & _ & Hp)%parsable_health_reports]. by exists p.
  - intros [p Hp]. exists (Identified x p). apply parsable_health_reports. by exists p.
Qed.

(** ** The loop over the results *)

(** A list either holds no element that passes a test, or splits at the
    first one that does. *)
Lemma first_split {A} (f : A -> bool) (xs : list A) :
  Forall (fun x => f x = false) xs
  \/ exists pre x post,
       xs = pre ++ x :: post /\ Forall (fun y => f y = false) pre /\ f x = true.
Proof.
  induction xs as [|x xs IH]; [by left|].
  destruct (f x) eqn:Hx.
  - right. exists [], x, xs. by repeat split.
  - destruct IH as [IH|(pre & y & post & -> & Hpre & Hy)].
    + left. by constructor.
    + right. exists (x :: pre), y, post. repeat split; [|done]. by constructor.
Qed.

Lemma full_scan_none w podId results s :
  Forall (fun r => Full.selected podId r = None) results ->
  Full.scan w podId results s
  = (Normal None, Proc (POD_CACHE s) (io s) (console s ++ [LogNotFound podId])).
Proof.
  induction 1 as [|r rs Hr _ IH]; simpl; [done|]. by rewrite Hr.
Qed.

Lemma full_scan_first w podId pre r post a s :
  Forall (fun r => Full.selected podId r = None) pre ->
  Full.selected podId r = Some a ->
  Full.scan w podId (pre ++ r :: post) s
  = (Normal (Some a),
     Proc (<[podId := CacheEntry a (now_at_store w + Full.TTL)]> (POD_CACHE s))
          (io s) (console s ++ [LogDiscovered podId a])).
Proof.
  intros Hpre Hr. induction Hpre as [|r' rs Hr' _ IH]; simpl.
  - by rewrite Hr.
  - by rewrite Hr'.
Qed.

Lemma minimal_scan_none w podId results s :
  Forall (fun r => Minimal.selected podId r = None) results ->
  Minimal.scan w podId results s = (Normal None, s).
Proof.
  induction 1 as [|r rs Hr _ IH]; simpl; [done|]. by rewrite Hr.
Qed.

Lemma minimal_scan_first w podId pre r post a s :
  Forall (fun r => Minimal.selected podId r = None) pre ->
  Minimal.selected podId r = Some a ->
  Minimal.scan w podId (pre ++ r :: post) s
  = (Normal (Some a),
     Proc (<[podId := CacheEntry a (now_at_store w + Minimal.TTL)]> (POD_CACHE s))
          (io s) (console s)).
Proof.
  intros Hpre Hr. induction Hpre as [|r' rs Hr' _ IH]; simpl.
  - by rewrite Hr.
  - by rewrite Hr'.
Qed.

(** ** Discovery on a cache miss *)

Lemma full_discover_unset e w podId s :
  cache_miss w podId s ->
  env_COLYSEUS_INTERNAL_URL e = None ->
  Full.discoverAndGetIp e w podId s
  = (Normal None,
     Proc (POD_CACHE s) (io s)
          (console s ++ [LogCacheMiss podId; LogDnsError "ERR_INVALID_ARG_TYPE"])).
Proof.
  intros Hmiss Hh. unfold cache_miss in Hmiss.
  unfold Full.discoverAndGetIp, mbind, JS_bind, cache_get. rewrite Hmiss.
  unfold try_catch, log at 1. simpl.
  unfold mbind, JS_bind. rewrite resolve_all_run, Hh. simpl.
  run. by rewrite <- app_assoc.
Qed.

Lemma full_discover_no_ips e w podId h s :
  cache_miss w podId s ->
  env_COLYSEUS_INTERNAL_URL e = Some h ->
  candidates e w = [] ->
  Full.discoverAndGetIp e w podId s
  = (Normal None,
     Proc (POD_CACHE s) (io s ++ [IoResolve4 h; IoResolve6 h])
          (console s ++ [LogCacheMiss podId; LogDns []; LogNoIps (Some h)])).
Proof.
  intros Hmiss Hh Hc. unfold cache_miss in Hmiss.
  unfold Full.discoverAndGetIp, mbind, JS_bind, cache_get. rewrite Hmiss.
  unfold try_catch, log at 1. simpl.
  unfold mbind, JS_bind. rewrite resolve_all_run, Hh, Hc. simpl.
  unfold Full.COLYSEUS_INTERNAL_DNS. rewrite Hh.
  run. by rewrite <- !app_assoc.
Qed.

Lemma full_discover_probes e w podId h s :
  cache_miss w podId s ->
  env_COLYSEUS_INTERNAL_URL e = Some h ->
  candidates e w <> [] ->
  exists d,
    Full.discoverAndGetIp e w podId s
    = Full.scan w podId (map (fun x => outcome_of (Full.probe e w x)) (candidates e w))
                (extend (after_enumeration e w podId h s) d).
Proof.
  intros Hmiss Hh Hc. unfold cache_miss in Hmiss.
  destruct (allSettled_run (Full.probe e w) (candidates e w)
              (after_enumeration e w podId h s) (cache_free_full_probe e w)) as [d Hd].
  exists d.
  unfold Full.discoverAndGetIp, mbind, JS_bind, cache_get. rewrite Hmiss.
  unfold try_catch, log at 1. simpl.
  unfold mbind, JS_bind. rewrite resolve_all_run, Hh. simpl.
  destruct (candidates e w) as [|x xs] eqn:E; [done|].
  unfold after_enumeration in *. rewrite E in *.
  replace ((console s ++ [LogCacheMiss podId]) ++ [LogDns (x :: xs)])
    with (console s ++ [LogCacheMiss podId; LogDns (x :: xs)])
    by (by rewrite <- app_assoc).
  by rewrite Hd.
Qed.

Lemma minimal_discover_unset e w podId s :
  cache_miss w podId s ->
  env_COLYSEUS_INTERNAL_URL e = None ->
  Minimal.getIpForPod e w podId s = (Thrown "ERR_INVALID_ARG_TYPE", s).
Proof.
  intros Hmiss Hh. unfold cache_miss in Hmiss.
  unfold Minimal.getIpForPod, mbind, JS_bind, cache_get. rewrite Hmiss.
  unfold Minimal.COLYSEUS_URL. by rewrite Hh.
Qed.

Lemma minimal_discover_probes e w podId h s :
  cache_miss w podId s ->
  env_COLYSEUS_INTERNAL_URL e = Some h ->
  exists d,
    Minimal.getIpForPod e w podId s
    = Minimal.scan w podId
        (map (fun x => outcome_of (Minimal.probe e w x)) (candidates e w))
        (extend (Proc (POD_CACHE s) (io s ++ [IoResolve4 h; IoResolve6 h]) (console s)) d).
Proof.
  intros Hmiss Hh. unfold cache_miss in Hmiss.
  destruct (allSettled_run (Minimal.probe e w) (candidates e w)
              (Proc (POD_CACHE s) (io s ++ [IoResolve4 h; IoResolve6 h]) (console s))
              (cache_free_minimal_probe e w)) as [d Hd].
  exists d.
  unfold Minimal.getIpForPod, mbind, JS_bind, cache_get. rewrite Hmiss.
  unfold Minimal.COLYSEUS_URL. rewrite Hh.
  rewrite (candidates_set e w h Hh) in *.
  run. rewrite <- app_assoc. simpl. by rewrite Hd.
Qed.

Lemma identifies_selected_none {A} (f : string -> bool) (sel : settled A -> option string)
    (out : string -> settled A) xs :
  (forall x, f x = false <-> sel (out x) = None) ->
  Forall (fun x => f x = false) xs ->
  Forall (fun r => sel r = None) (map out xs).
Proof.
  intros Hf H. induction H as [|x xs Hx _ IH]; simpl; constructor; [|done].
  by apply Hf.
Qed.

(** The first candidate, in candidate order, that reports the identity
    is returned and cached. *)
Lemma full_discover_first e w podId s pre x post :
  cache_miss w podId s ->
  candidates e w = pre ++ x :: post ->
  Forall (fun y => full_identifies e w podId y = false) pre ->
  full_identifies e w podId x = true ->
  exists s',
    Full.discoverAndGetIp e w podId s = (Normal (Some x), s')
    /\ POD_CACHE s' = <[podId := CacheEntry x (now_at_store w + Full.TTL)]> (POD_CACHE s).
Proof.
  intros Hmiss Hc Hpre Hx.
  destruct (env_COLYSEUS_INTERNAL_URL e) as [h|] eqn:Hh;
    [|rewrite (candidates_unset e w Hh) in Hc; by destruct pre].
  destruct (full_discover_probes e w podId h s Hmiss Hh) as [d ->].
  { rewrite Hc. by destruct pre. }
  rewrite Hc, map_app. simpl.
  rewrite (full_scan_first w podId _ _ _ x).
  - eexists. split; [reflexivity|done].
  - eapply identifies_selected_none; [|exact Hpre].
    intros y. apply full_identifies_none.
  - by apply full_identifies_selected.
Qed.

Lemma minimal_discover_first e w podId s pre x post :
  cache_miss w podId s ->
  candidates e w = pre ++ x :: post ->
  Forall (fun y => minimal_identifies e w podId y = false) pre ->
  minimal_identifies e w podId x = true ->
  exists s',
    Minimal.getIpForPod e w podId s = (Normal (Some x), s')
    /\ POD_CACHE s' = <[podId := CacheEntry x (now_at_store w + Minimal.TTL)]> (POD_CACHE s).
Proof.
  intros Hmiss Hc Hpre Hx.
  destruct (env_COLYSEUS_INTERNAL_URL e) as [h|] eqn:Hh;
    [|rewrite (candidates_unset e w Hh) in Hc; by destruct pre].
  destruct (minimal_discover_probes e w podId h s Hmiss Hh) as [d ->].
  rewrite Hc, map_app. simpl.
  rewrite (minimal_scan_first w podId _ _ _ x).
  - eexists. split; [reflexivity|done].
  - eapply identifies_selected_none; [|exact Hpre].
    intros y. apply minimal_identifies_none.
  - by apply minimal_identifies_selected.
Qed.

(** With no candidate reporting the identity the full variant returns
    [null] and leaves the cache as it was, whatever the enumeration
    gave. *)
Lemma full_discover_none e w podId s :
  cache_miss w podId s ->
  Forall (fun y => full_identifies e w podId y = false) (candidates e w) ->
  exists s',
    Full.discoverAndGetIp e w podId s = (Normal None, s')
    /\ POD_CACHE s' = POD_CACHE s
    /\ exists lines, console s' = console s ++ lines.
Proof.
  intros Hmiss Hnone.
  destruct (env_COLYSEUS_INTERNAL_URL e) as [h|] eqn:Hh.
  - destruct (decide (candidates e w = [])) as [Hc|Hc].
    + rewrite (full_discover_no_ips e w podId h s Hmiss Hh Hc).
      eexists. split; [reflexivity|]. split; [done|]. by eexists.
    + destruct (full_discover_probes e w podId h s Hmiss Hh Hc) as [d ->].
      rewrite full_scan_none.
      * eexists. split; [reflexivity|]. split; [done|]. simpl.
        rewrite <- !app_assoc. by eexists.
      * eapply identifies_selected_none; [|exact Hnone].
        intros y. apply full_identifies_none.
  - rewrite (full_discover_unset e w podId s Hmiss Hh).
    eexists. split; [reflexivity|]. split; [done|]. by eexists.
Qed.

(** A valid entry is returned as it is. *)
Lemma full_discover_hit e w podId c s :
  POD_CACHE s !! podId = Some c ->
  now_at_lookup w < expiresAt c ->
  Full.discoverAndGetIp e w podId s
  = (Normal (Some (ip c)),
     Proc (POD_CACHE s) (io s) (console s ++ [LogCacheHit podId (ip c)])).
Proof.
  intros Hc Ht. unfold Full.discoverAndGetIp, mbind, JS_bind, cache_get.
  rewrite Hc. simpl. by rewrite (proj2 (Z.ltb_lt _ _) Ht).
Qed.

Lemma minimal_discover_hit e w podId c s :
  POD_CACHE s !! podId = Some c ->
  now_at_lookup w < expiresAt c ->
  Minimal.getIpForPod e w podId s = (Normal (Some (ip c)), s).
Proof.
  intros Hc Ht. unfold Minimal.getIpForPod, mbind, JS_bind, cache_get.
  rewrite Hc. simpl. by rewrite (proj2 (Z.ltb_lt _ _) Ht).
Qed.

Lemma cache_miss_or_hit w podId s :
  cache_miss w podId s
  \/ exists c, POD_CACHE s !! podId = Some c /\ now_at_lookup w < expiresAt c.
Proof.
  unfold cache_miss, valid_entry.
  destruct (POD_CACHE s !! podId) as [c|]; [|by left].
  destruct (Z.ltb_spec (now_at_lookup w) (expiresAt c)); [|by left].
  right. by exists c.
Qed.

Lemma minimal_discover_none e w podId h s :
  cache_miss w podId s ->
  env_COLYSEUS_INTERNAL_URL e = Some h ->
  Forall (fun y => minimal_identifies e w podId y = false) (candidates e w) ->
  exists s',
    Minimal.getIpForPod e w podId s = (Normal None, s')
    /\ POD_CACHE s' = POD_CACHE s.
Proof.
  intros Hmiss Hh Hnone.
  destruct (minimal_discover_probes e w podId h s Hmiss Hh) as [d ->].
  rewrite minimal_scan_none.
  - eexists. by split.
  - eapply identifies_selected_none; [|exact Hnone].
    intros y. apply minimal_identifies_none.
Qed.

Lemma filter_none {A} (f : A -> bool) xs :
  Forall (fun x => f x = false) xs -> List.filter f xs = [].
Proof.
  induction 1 as [|x xs Hx _ IH]; simpl; [done|]. by rewrite Hx.
Qed.

(** ** The cache *)

(** C1: for every podId that has a cache entry whose expiresAt is
    strictly greater than the current time, discovery (discoverAndGetIp
    and getIpForPod alike) returns the address of that entry, and the
    call sends no DNS query and no probe: the list of outgoing calls and
    the cache are what they were. *)
Theorem cached_address_without_discovery e w podId c s :
  POD_CACHE s !! podId = Some c ->
  expiresAt c > now_at_lookup w ->
  (exists s',
     Full.discoverAndGetIp e w podId s = (Normal (Some (ip c)), s')
     /\ io s' = io s
     /\ POD_CACHE s' = POD_CACHE s)
  /\ Minimal.getIpForPod e w podId s = (Normal (Some (ip c)), s).
Proof.
  intros Hc Ht. apply Z.gt_lt in Ht. split.
  - rewrite (full_discover_hit e w podId c s Hc Ht). by eexists.
  - by apply minimal_discover_hit.
Qed.

Lemma cached_address_without_discovery_witness :
  (exists s',
     Full.discoverAndGetIp sample_env sample_world "beta" warm_cache
     = (Normal (Some "10.0.0.9"), s')
     /\ io s' = io warm_cache
     /\ POD_CACHE s' = POD_CACHE warm_cache)
  /\ Minimal.getIpForPod sample_env sample_world "beta" warm_cache
     = (Normal (Some "10.0.0.9"), warm_cache).
Proof.
  apply (cached_address_without_discovery sample_env sample_world "beta"
           (CacheEntry "10.0.0.9" 5000) warm_cache).
  - reflexivity.
  - reflexivity.
Defined.

(** C4: when candidates resolve and exactly one of them reports the
    identity asked for, discovery returns the address of that candidate
    and writes for the podId a cache entry that expires one TTL after
    the current time; the TTL is a constant between 15 and 20 seconds
    (18 in the full variant, 15 in the minimal one). *)
Theorem unique_match_returned_and_cached e w podId s pre x post :
  cache_miss w podId s ->
  candidates e w = pre ++ x :: post ->
  (15 * second <= Full.TTL <= 20 * second
   /\ (full_identifies e w podId x = true ->
       Forall (fun y => full_identifies e w podId y = false) (pre ++ post) ->
       exists s',
         Full.discoverAndGetIp e w podId s = (Normal (Some x), s')
         /\ POD_CACHE s'
            = <[podId := CacheEntry x (now_at_store w + Full.TTL)]> (POD_CACHE s)))
  /\ (15 * second <= Minimal.TTL <= 20 * second
      /\ (minimal_identifies e w podId x = true ->
          Forall (fun y => minimal_identifies e w podId y = false) (pre ++ post) ->
          exists s',
            Minimal.getIpForPod e w podId s = (Normal (Some x), s')
            /\ POD_CACHE s'
               = <[podId := CacheEntry x (now_at_store w + Minimal.TTL)]> (POD_CACHE s))).
Proof.
  intros Hmiss Hc. split; (split; [by compute|]); intros Hx Hothers.
  - apply (full_discover_first e w podId s pre x post); try done.
    by apply Forall_app in Hothers as [? _].
  - apply (minimal_discover_first e w podId s pre x post); try done.
    by apply Forall_app in Hothers as [? _].
Qed.

Lemma unique_match_returned_and_cached_witness :
  (exists s',
     Full.discoverAndGetIp sample_env sample_world "beta" initial
     = (Normal (Some "10.0.0.2"), s')
     /\ POD_CACHE s' = <[ "beta" := CacheEntry "10.0.0.2" 19200 ]> ∅)
  /\ (exists s',
        Minimal.getIpForPod sample_env sample_world "beta" initial
        = (Normal (Some "10.0.0.2"), s')
        /\ POD_CACHE s' = <[ "beta" := CacheEntry "10.0.0.2" 16200 ]> ∅).
Proof.
  destruct (unique_match_returned_and_cached sample_env sample_world "beta"
              initial ["10.0.0.1"] "10.0.0.2" ["fd00::3"])
    as [[_ HF] [_ HM]].
  - reflexivity.
  - reflexivity.
  - split.
    + apply HF; [reflexivity|]. repeat constructor.
    + apply HM; [reflexivity|]. repeat constructor.
Defined.

(** C5: when two or more candidates report the identity asked for,
    discovery selects the first of them in result order (the order of the
    candidates): whatever the candidates before it report, and although a
    later candidate reports the same identity, it returns the address of
    that first one and completes normally. *)
Theorem duplicate_identity_first_wins e w podId s pre x mid y post :
  cache_miss w podId s ->
  candidates e w = pre ++ x :: mid ++ y :: post ->
  (Forall (fun z => ~ full_reports e w z podId) pre ->
   full_reports e w x podId ->
   full_reports e w y podId ->
   exists s', Full.discoverAndGetIp e w podId s = (Normal (Some x), s'))
  /\ (Forall (fun z => ~ minimal_reports e w z podId) pre ->
      minimal_reports e w x podId ->
      minimal_reports e w y podId ->
      exists s', Minimal.getIpForPod e w podId s = (Normal (Some x), s')).
Proof.
  intros Hmiss Hc. split; intros Hpre Hx _.
  - destruct (full_discover_first e w podId s pre x (mid ++ y :: post))
      as (s' & Hrun & _); try done.
    + by apply full_none_report.
    + by apply full_identifies_reports.
    + by exists s'.
  - destruct (minimal_discover_first e w podId s pre x (mid ++ y :: post))
      as (s' & Hrun & _); try done.
    + by apply minimal_none_report.
    + by apply minimal_identifies_reports.
    + by exists s'.
Qed.

Lemma duplicate_identity_first_wins_witness :
  (exists s',
     Full.discoverAndGetIp sample_env triple_world "alpha" initial
     = (Normal (Some "10.0.0.2"), s'))
  /\ (exists s',
        Minimal.getIpForPod sample_env triple_world "alpha" initial
        = (Normal (Some "10.0.0.2"), s')).
Proof.
  destruct (duplicate_identity_first_wins sample_env triple_world "alpha" initial
              ["10.0.0.1"] "10.0.0.2" [] "10.0.0.3" []) as [HF HM].
  - reflexivity.
  - reflexivity.
  - split.
    + apply HF.
      * constructor; [|constructor]. intros (v & Hv & Hp).
        vm_compute in Hv. injection Hv as <-. inversion Hp.
      * exists (VStr "alpha"). split; [reflexivity|constructor].
      * exists (VStr "alpha"). split; [reflexivity|constructor].
    + apply HM.
      * constructor; [|constructor]. intros Hv. vm_compute in Hv. discriminate Hv.
      * reflexivity.
      * reflexivity.
Defined.

(** Behind a backend of another identity, the first of two claimants is
    the one returned. *)
Example triple_world_first :
  (Full.discoverAndGetIp sample_env triple_world "alpha" initial).1
  = Normal (Some "10.0.0.2")
  /\ (Minimal.getIpForPod sample_env triple_world "alpha" initial).1
     = Normal (Some "10.0.0.2").
Proof. by vm_compute. Qed.

(** With two claimants the address returned is the one listed first. *)
Example twin_world_first :
  (Full.discoverAndGetIp sample_env twin_world "alpha" initial).1
  = Normal (Some "10.0.0.1")
  /\ (Minimal.getIpForPod sample_env twin_world "alpha" initial).1
     = Normal (Some "10.0.0.1").
Proof. by vm_compute. Qed.

(** C8: when no candidate of the round reports the identity asked for,
    discoverAndGetIp returns its failure value ([null]) and POD_CACHE is
    after the call the very map it was before. *)
Theorem no_match_leaves_cache e w podId s :
  cache_miss w podId s ->
  Forall (fun y => full_identifies e w podId y = false) (candidates e w) ->
  exists s',
    Full.discoverAndGetIp e w podId s = (Normal None, s')
    /\ POD_CACHE s' = POD_CACHE s.
Proof.
  intros Hmiss Hnone.
  destruct (full_discover_none e w podId s Hmiss Hnone) as (s' & Hrun & Hcache & _).
  by exists s'.
Qed.

Lemma no_match_leaves_cache_witness :
  exists s',
    Full.discoverAndGetIp sample_env sample_world "gamma" warm_cache = (Normal None, s')
    /\ POD_CACHE s' = POD_CACHE warm_cache.
Proof.
  apply (no_match_leaves_cache sample_env sample_world "gamma" warm_cache).
  - reflexivity.
  - repeat constructor.
Defined.

(** ** Failures stay inside discovery *)

(** The full variant completes normally in every environment. *)
Lemma full_discover_completes e w podId s :
  exists r s', Full.discoverAndGetIp e w podId s = (Normal r, s').
Proof.
  destruct (cache_miss_or_hit w podId s) as [Hmiss|(c & Hc & Ht)].
  - destruct (first_split (full_identifies e w podId) (candidates e w))
      as [Hnone|(pre & x & post & Hc & Hpre & Hx)].
    + destruct (full_discover_none e w podId s Hmiss Hnone) as (s' & -> & _).
      by eexists _, _.
    + destruct (full_discover_first e w podId s pre x post) as (s' & -> & _);
        try done. by eexists _, _.
  - rewrite (full_discover_hit e w podId c s Hc Ht). by eexists _, _.
Qed.

(** The minimal variant completes normally once its queries can be
    issued. *)
Lemma minimal_discover_completes e w podId h s :
  env_COLYSEUS_INTERNAL_URL e = Some h ->
  exists r s', Minimal.getIpForPod e w podId s = (Normal r, s').
Proof.
  intros Hh.
  destruct (cache_miss_or_hit w podId s) as [Hmiss|(c & Hc & Ht)].
  - destruct (first_split (minimal_identifies e w podId) (candidates e w))
      as [Hnone|(pre & x & post & Hc & Hpre & Hx)].
    + destruct (minimal_discover_none e w podId h s Hmiss Hh Hnone) as (s' & -> & _).
      by eexists _, _.
    + destruct (minimal_discover_first e w podId s pre x post) as (s' & -> & _);
        try done. by eexists _, _.
  - rewrite (minimal_discover_hit e w podId c s Hc Ht). by eexists _, _.
Qed.

(** Whatever the two DNS queries and the probes of the candidates yield
    (a rejected query, a timeout or refused connection, a body without
    podId or with a malformed one), discovery completes normally with an
    address or with [null]: discoverAndGetIp in every environment,
    getIpForPod whenever the hostname of the pool is configured. *)
Theorem discovery_never_throws e w podId s :
  (exists r s', Full.discoverAndGetIp e w podId s = (Normal r, s'))
  /\ (is_Some (env_COLYSEUS_INTERNAL_URL e) ->
      exists r s', Minimal.getIpForPod e w podId s = (Normal r, s')).
Proof.
  split; [apply full_discover_completes|].
  intros [h Hh]. by apply (minimal_discover_completes e w podId h).
Qed.

Lemma discovery_never_throws_witness :
  (exists r s', Full.discoverAndGetIp sample_env faulty_world "alpha" initial = (Normal r, s'))
  /\ (exists r s', Minimal.getIpForPod sample_env faulty_world "alpha" initial = (Normal r, s')).
Proof.
  destruct (discovery_never_throws sample_env faulty_world "alpha" initial) as [HF HM].
  split; [exact HF|]. apply HM. by eexists.
Defined.

(** Every probe of the faulty pool fails, each is logged, and the call
    ends with [null]. *)
Example faulty_world_null :
  (Full.discoverAndGetIp sample_env faulty_world "alpha" initial).1 = Normal None
  /\ console (Full.discoverAndGetIp sample_env faulty_world "alpha" initial).2
     = [LogCacheMiss "alpha"; LogDns ["fd00::1"; "fd00::2"; "fd00::3"; "fd00::4"];
        LogUnreachable "fd00::1"; LogUnreachable "fd00::2"; LogUnreachable "fd00::4";
        LogNotFound "alpha"]
  /\ (Minimal.getIpForPod sample_env faulty_world "alpha" initial).1 = Normal None.
Proof. by vm_compute. Qed.


(** Without a hostname the queries of the minimal variant cannot be
    issued: the call throws before anything is sent, while the full
    variant logs the error and returns [null]. *)
Lemma unset_hostname e w podId s :
  cache_miss w podId s ->
  env_COLYSEUS_INTERNAL_URL e = None ->
  (Minimal.getIpForPod e w podId s).1 = Thrown "ERR_INVALID_ARG_TYPE"
  /\ (Full.discoverAndGetIp e w podId s).1 = Normal None.
Proof.
  intros Hmiss Hh.
  by rewrite minimal_discover_unset, full_discover_unset.
Qed.

(** ** The handlers of the full variant *)

(** The state in which the request handler starts routing. *)
Lemma full_server_request_routing e w pn req s :
  Full.is_health_request req = false ->
  Full.server_request e w pn req s
  = match present (Full.url_podId pn req) with
    | None => mret (Respond 400 "Bad Request: podId missing in path")
    | Some podId =>
        targetIp ← Full.discoverAndGetIp e w podId;
        match present targetIp with
        | None =>
            log (LogFail504 podId);;
            mret (Respond 504 "Pod not found or all replicas unhealthy")
        | Some targetIp =>
            mret (ProxyWeb ("http://" +:+ Full.host_of targetIp +:+ ":" +:+ COLYSEUS_PORT e))
        end
    end (after_log s (LogHttp (method req) (url req) (Full.url_podId pn req))).
Proof.
  intros Hh. unfold Full.server_request. rewrite Hh.
  unfold mbind at 1. unfold JS_bind at 1. done.
Qed.

Lemma full_server_request_null e w pn req podId s s' :
  Full.is_health_request req = false ->
  present (Full.url_podId pn req) = Some podId ->
  Full.discoverAndGetIp e w podId
    (after_log s (LogHttp (method req) (url req) (Full.url_podId pn req)))
  = (Normal None, s') ->
  Full.server_request e w pn req s
  = (Normal (Respond 504 "Pod not found or all replicas unhealthy"),
     after_log s' (LogFail504 podId)).
Proof.
  intros Hh Hp Hd. rewrite full_server_request_routing by done. rewrite Hp.
  unfold mbind at 1. unfold JS_bind at 1. rewrite Hd. done.
Qed.

Lemma full_server_upgrade_null e w pn req podId s s' :
  present (Full.url_podId pn req) = Some podId ->
  Full.discoverAndGetIp e w podId
    (after_log s (LogWsUpgrade (url req) (Full.url_podId pn req)))
  = (Normal None, s') ->
  Full.server_upgrade e w pn req s
  = (Normal SocketDestroy, after_log s' (LogWsRejectNotFound podId)).
Proof.
  intros Hp Hd. unfold Full.server_upgrade.
  unfold mbind at 1. unfold JS_bind at 1. unfold log at 1. fold (after_log s).
  rewrite Hp. unfold mbind at 1. unfold JS_bind at 1.
  unfold after_log in Hd |- *. rewrite Hd. done.
Qed.

(** ** No candidates, and no candidate that matches *)

(** C3, as the code has it: when DNS resolution yields no candidate,
    discovery returns [null], the value it also returns when candidates
    exist and none reports the identity asked for; the request handler
    answers both with 504 and the upgrade handler destroys the socket in
    both.  The two conditions differ in the last console line of the
    call only: the "no IPs resolved" error in the first, the "not found"
    error in the second. *)
Theorem no_candidates_told_apart_in_console_only e w podId h s :
  cache_miss w podId s ->
  env_COLYSEUS_INTERNAL_URL e = Some h ->
  Forall (fun y => full_identifies e w podId y = false) (candidates e w) ->
  (exists s' lines,
     Full.discoverAndGetIp e w podId s = (Normal None, s')
     /\ console s' = console s ++ lines
     /\ (candidates e w = [] -> last lines = Some (LogNoIps (Some h)))
     /\ (candidates e w <> [] -> last lines = Some (LogNotFound podId)))
  /\ (forall pn req,
        Full.is_health_request req = false ->
        present (Full.url_podId pn req) = Some podId ->
        (Full.server_request e w pn req s).1
        = Normal (Respond 504 "Pod not found or all replicas unhealthy"))
  /\ (forall pn req,
        present (Full.url_podId pn req) = Some podId ->
        (Full.server_upgrade e w pn req s).1 = Normal SocketDestroy).
Proof.
  intros Hmiss Hh Hnone. split; [|split].
  - destruct (decide (candidates e w = [])) as [Hc|Hc].
    + rewrite (full_discover_no_ips e w podId h s Hmiss Hh Hc).
      eexists _, _. split; [reflexivity|]. simpl. split; [reflexivity|].
      split; [done|]. intros Hne. by destruct Hne.
    + destruct (full_discover_probes e w podId h s Hmiss Hh Hc) as [d ->].
      rewrite full_scan_none.
      * exists (after_log (extend (after_enumeration e w podId h s) d) (LogNotFound podId)),
          (([LogCacheMiss podId; LogDns (candidates e w)] ++ console d)
             ++ [LogNotFound podId]).
        split; [reflexivity|].
        split; [simpl; by rewrite <- !app_assoc|].
        split; [done|]. intros _. apply last_snoc.
      * eapply identifies_selected_none; [|exact Hnone].
        intros y. apply full_identifies_none.
  - intros pn req Hreq Hp.
    destruct (full_discover_none e w podId
                (after_log s (LogHttp (method req) (url req) (Full.url_podId pn req))))
      as (s' & Hd & _); [done|done|].
    by rewrite (full_server_request_null e w pn req podId s s').
  - intros pn req Hp.
    destruct (full_discover_none e w podId
                (after_log s (LogWsUpgrade (url req) (Full.url_podId pn req))))
      as (s' & Hd & _); [done|done|].
    by rewrite (full_server_upgrade_null e w pn req podId s s').
Qed.

Lemma no_candidates_told_apart_in_console_only_witness :
  (exists s' lines,
     Full.discoverAndGetIp sample_env empty_world "gamma" initial = (Normal None, s')
     /\ console s' = console initial ++ lines
     /\ (candidates sample_env empty_world = []
         -> last lines = Some (LogNoIps (Some "colyseus.internal")))
     /\ (candidates sample_env empty_world <> []
         -> last lines = Some (LogNotFound "gamma")))
  /\ (forall pn req,
        Full.is_health_request req = false ->
        present (Full.url_podId pn req) = Some "gamma" ->
        (Full.server_request sample_env empty_world pn req initial).1
        = Normal (Respond 504 "Pod not found or all replicas unhealthy"))
  /\ (forall pn req,
        present (Full.url_podId pn req) = Some "gamma" ->
        (Full.server_upgrade sample_env empty_world pn req initial).1
        = Normal SocketDestroy).
Proof.
  apply (no_candidates_told_apart_in_console_only sample_env empty_world "gamma"
           "colyseus.internal" initial).
  - reflexivity.
  - reflexivity.
  - constructor.
Defined.

(** C3, as stated, fails: an empty pool and a pool without the pod give
    the caller the same value, and the client the same answer. *)
Lemma no_candidates_same_as_not_found :
  candidates sample_env empty_world = []
  /\ candidates sample_env sample_world = ["10.0.0.1"; "10.0.0.2"; "fd00::3"]
  /\ (Full.discoverAndGetIp sample_env empty_world "gamma" initial).1 = Normal None
  /\ (Full.discoverAndGetIp sample_env sample_world "gamma" initial).1 = Normal None
  /\ (Full.server_request sample_env empty_world origin_form_pathname
        (Request "GET" "/gamma/room") initial).1
     = (Full.server_request sample_env sample_world origin_form_pathname
          (Request "GET" "/gamma/room") initial).1
  /\ (Full.server_upgrade sample_env empty_world origin_form_pathname
        (Request "GET" "/gamma/room") initial).1
     = (Full.server_upgrade sample_env sample_world origin_form_pathname
          (Request "GET" "/gamma/room") initial).1.
Proof. by vm_compute. Qed.

(** ** The health check *)

Lemma fulfilled_values_parsable e w xs :
  Full.fulfilled_values (map (fun x => outcome_of (Full.health_probe e w x)) xs)
  = omap (parsable_identity e w) xs.
Proof.
  induction xs as [|x xs IH]; simpl; [done|].
  unfold parsable_identity at 1.
  destruct (outcome_of (Full.health_probe e w x)); simpl; by rewrite IH.
Qed.

Lemma no_rejected_parsable e w xs :
  List.filter Full.is_rejected
    (map (fun x => outcome_of (Full.health_probe e w x)) xs) = []
  <-> Forall (fun x => is_Some (parsable_identity e w x)) xs.
Proof.
  induction xs as [|x xs IH]; simpl; [done|].
  rewrite Forall_cons. unfold parsable_identity at 1.
  destruct (outcome_of (Full.health_probe e w x)); simpl.
  - rewrite IH. split; [by split|by intros [_ ?]].
  - split; [done|]. by intros [[? ?] _].
Qed.

(** One dead address among three: unhealthy, with the two that
    answered. *)
Example health_one_unreachable :
  (Full.checkAllPodsHavePodId sample_env sample_world initial).1
  = Normal (Full.Unhealthy "some_pods_unhealthy"
              (Some [Identified "10.0.0.1" "alpha"; Identified "10.0.0.2" "beta"])).
Proof. by vm_compute. Qed.

(** ** Requests without podId *)

(** The full request handler answers 400 and leaves cache and outgoing
    calls alone. *)
Lemma full_request_without_podId e w pn req s :
  Full.is_health_request req = false ->
  present (Full.url_podId pn req) = None ->
  exists s',
    Full.server_request e w pn req s
    = (Normal (Respond 400 "Bad Request: podId missing in path"), s')
    /\ io s' = io s /\ POD_CACHE s' = POD_CACHE s.
Proof.
  intros Hh Hp. rewrite full_server_request_routing by done. rewrite Hp.
  by eexists.
Qed.

(** The full upgrade handler destroys the socket and leaves cache and
    outgoing calls alone. *)
Lemma full_upgrade_without_podId e w pn req s :
  present (Full.url_podId pn req) = None ->
  exists s',
    Full.server_upgrade e w pn req s = (Normal SocketDestroy, s')
    /\ io s' = io s /\ POD_CACHE s' = POD_CACHE s.
Proof.
  intros Hp. unfold Full.server_upgrade.
  unfold mbind at 1, JS_bind at 1, log at 1. rewrite Hp.
  by eexists.
Qed.

(** The path ["/"] and the empty target have no first segment, whatever
    the query string. *)
Lemma origin_form_no_segment :
  Full.url_podId origin_form_pathname (Request "GET" "/") = None
  /\ Full.url_podId origin_form_pathname (Request "GET" EmptyString) = None
  /\ Full.url_podId origin_form_pathname (Request "GET" "/?room=1") = None.
Proof. by vm_compute. Qed.

(** The minimal upgrade handler destroys the socket at once. *)
Lemma minimal_upgrade_without_podId e w m s :
  Minimal.server_upgrade e w (Request m "/") s = (Normal SocketDestroy, s)
  /\ Minimal.server_upgrade e w (Request m EmptyString) s = (Normal SocketDestroy, s).
Proof. done. Qed.

(** C6, on the minimal request handler: a request to ["/"] or to the
    empty target attempts no discovery, but it is answered with the body
    "Bad request" under the default status 200, where the design (and the
    full handler) has status 400. *)
Theorem minimal_request_without_podId_status e w m s :
  Minimal.server_request e w (Request m "/") s
  = (Normal (Respond 200 "Bad request"), s)
  /\ Minimal.server_request e w (Request m EmptyString) s
     = (Normal (Respond 200 "Bad request"), s).
Proof. done. Qed.

(** ** Hosts of IPv6 addresses *)

Lemma append_assoc (a b c : string) : (a +:+ b) +:+ c = a +:+ (b +:+ c).
Proof.
  induction a as [|ch a IH]; [reflexivity|].
  change (String ch ((a +:+ b) +:+ c) = String ch (a +:+ (b +:+ c))).
  by f_equal.
Qed.

Lemma host_of_ipv6 x : includes ":" x = true -> Full.host_of x = "[" +:+ x +:+ "]".
Proof. intros H. unfold Full.host_of. by rewrite H. Qed.

Lemma host_of_ipv4 x : includes ":" x = false -> Full.host_of x = x.
Proof. intros H. unfold Full.host_of. by rewrite H. Qed.

(** Every host the full variant composes goes through the bracket
    test: the probe URLs, the two proxy targets and the Host header. *)
Lemma full_hosts_bracketed e w pn req podId c s :
  Full.is_health_request req = false ->
  present (Full.url_podId pn req) = Some podId ->
  POD_CACHE s !! podId = Some c ->
  now_at_lookup w < expiresAt c ->
  truthy (ip c) = true ->
  Full.probe_url e (ip c) = "http://" +:+ Full.host_of (ip c) +:+ ":" +:+ COLYSEUS_PORT e +:+ "/podid"
  /\ (Full.server_request e w pn req s).1
     = Normal (ProxyWeb ("http://" +:+ Full.host_of (ip c) +:+ ":" +:+ COLYSEUS_PORT e))
  /\ (Full.server_upgrade e w pn req s).1
     = Normal (ProxyWs ("ws://" +:+ Full.host_of (ip c) +:+ ":" +:+ COLYSEUS_PORT e)
                       (Some (Full.host_of (ip c) +:+ ":" +:+ COLYSEUS_PORT e))).
Proof.
  intros Hh Hp Hc Ht Hip. split; [done|]. split.
  - rewrite full_server_request_routing by done. rewrite Hp.
    unfold mbind at 1, JS_bind at 1.
    rewrite (full_discover_hit e w podId c (after_log s _) Hc Ht). simpl.
    unfold present. by rewrite Hip.
  - unfold Full.server_upgrade.
    unfold mbind at 1, JS_bind at 1, log at 1. rewrite Hp.
    unfold mbind at 1, JS_bind at 1.
    rewrite (full_discover_hit e w podId c (Proc (POD_CACHE s) _ _) Hc Ht). simpl.
    unfold present. rewrite Hip. simpl. unfold Full.host_of.
    destruct (includes ":" (ip c)); [|done].
    rewrite !append_assoc. reflexivity.
Qed.

(** C7, on the minimal variant: an IPv6 candidate goes into the probe
    URL and into the proxy targets without brackets, where the design
    (and the full variant) wraps it. *)
Theorem minimal_ipv6_host_unbracketed :
  includes ":" "fd00::3" = true
  /\ candidates sample_env sample_world = ["10.0.0.1"; "10.0.0.2"; "fd00::3"]
  /\ Minimal.probe_url sample_env "fd00::3" = "http://fd00::3:2567/podid"
  /\ io (Minimal.getIpForPod sample_env sample_world "gamma" initial).2
     = [IoResolve4 "colyseus.internal"; IoResolve6 "colyseus.internal";
        IoGet "http://10.0.0.1:2567/podid" 2500;
        IoGet "http://10.0.0.2:2567/podid" 2500;
        IoGet "http://fd00::3:2567/podid" 2500]
  /\ (Minimal.server_request sample_env sample_world (Request "GET" "/delta/room")
        ipv6_cache).1
     = Normal (ProxyWeb "http://fd00::3:2567")
  /\ (Minimal.server_upgrade sample_env sample_world (Request "GET" "/delta/room")
        ipv6_cache).1
     = Normal (ProxyWs "ws://fd00::3:2567" None)
  /\ Full.probe_url sample_env "fd00::3" = "http://[fd00::3]:2567/podid"
  /\ (Full.server_request sample_env sample_world origin_form_pathname
        (Request "GET" "/delta/room") ipv6_cache).1
     = Normal (ProxyWeb "http://[fd00::3]:2567").
Proof. by vm_compute. Qed.

(** ** The health endpoint *)

(** The health check always completes normally. *)
Lemma health_completes e w s :
  exists h s', Full.checkAllPodsHavePodId e w s = (Normal h, s').
Proof.
  unfold Full.checkAllPodsHavePodId, mbind at 1, JS_bind at 1.
  unfold try_catch, mbind at 1, JS_bind at 1.
  rewrite resolve_all_run.
  destruct (env_COLYSEUS_INTERNAL_URL e) as [host|]; [|by eexists _, _].
  unfold mbind at 1, JS_bind at 1, log at 1, mret at 1, JS_ret at 1.
  destruct (candidates e w) as [|x xs]; [by eexists _, _|].
  unfold mbind at 1, JS_bind at 1.
  match goal with
  | |- context [allSettled ?t ?l ?st] =>
      destruct (allSettled_run t l st (cache_free_health_probe e w)) as [d ->]
  end.
  match goal with
  | |- context [if ?b then _ else _] => destruct b
  end; by eexists _, _.
Qed.

Lemma is_health_request_spec req :
  Full.is_health_request req = true <-> method req = "GET" /\ url req = "/health".
Proof.
  unfold Full.is_health_request.
  destruct (String.eqb_spec (method req) "GET") as [Hm|Hm],
    (String.eqb_spec (url req) "/health") as [Hu|Hu]; simpl;
    (split; [try done|intros [? ?]; try done]).
Qed.

(** C10: the health report is the answer to a request exactly when its
    method is GET and its URL is the string "/health".  Every other
    request is routed by its first path segment; when that segment is
    "health" (as for GET /health?x=1, or for a POST to /health) the
    handler runs discovery for the podId "health" and answers from its
    result. *)
Theorem health_endpoint_exact_match e w pn req s :
  ((exists status state reason pods,
      (Full.server_request e w pn req s).1
      = Normal (RespondHealth status state reason pods))
   <-> method req = "GET" /\ url req = "/health")
  /\ (~ (method req = "GET" /\ url req = "/health") ->
      Full.server_request e w pn req s
      = match present (Full.url_podId pn req) with
        | None => mret (Respond 400 "Bad Request: podId missing in path")
        | Some podId =>
            targetIp ← Full.discoverAndGetIp e w podId;
            match present targetIp with
            | None =>
                log (LogFail504 podId);;
                mret (Respond 504 "Pod not found or all replicas unhealthy")
            | Some targetIp =>
                mret (ProxyWeb ("http://" +:+ Full.host_of targetIp +:+ ":"
                                  +:+ COLYSEUS_PORT e))
            end
        end (after_log s (LogHttp (method req) (url req) (Full.url_podId pn req))))
  /\ (~ (method req = "GET" /\ url req = "/health") ->
      pn (url req) = Some "/health" ->
      Full.url_podId pn req = Some "health"
      /\ Full.server_request e w pn req s
         = (targetIp ← Full.discoverAndGetIp e w "health";
            match present targetIp with
            | None =>
                log (LogFail504 "health");;
                mret (Respond 504 "Pod not found or all replicas unhealthy")
            | Some targetIp =>
                mret (ProxyWeb ("http://" +:+ Full.host_of targetIp +:+ ":"
                                  +:+ COLYSEUS_PORT e))
            end) (after_log s (LogHttp (method req) (url req) (Some "health")))).
Proof.
  pose proof (is_health_request_spec req) as Hspec.
  split; [|split].
  - rewrite <- Hspec. split.
    + intros (status & state & reason & pods & Hrun).
      destruct (Full.is_health_request req) eqn:Hh; [done|].
      rewrite full_server_request_routing in Hrun by done.
      destruct (present (Full.url_podId pn req)) as [podId|]; [|done].
      unfold mbind at 1, JS_bind at 1 in Hrun.
      destruct (full_discover_completes e w podId
                  (after_log s (LogHttp (method req) (url req) (Full.url_podId pn req))))
        as (r & s' & Hd).
      rewrite Hd in Hrun. by destruct (present r).
    + intros Hh. unfold Full.server_request. rewrite Hh.
      unfold mbind at 1, JS_bind at 1.
      destruct (health_completes e w s) as ([pods|reason success] & s' & ->);
        by eexists _, _, _, _.
  - intros Hno. apply full_server_request_routing.
    destruct (Full.is_health_request req); [|done]. destruct Hno. by apply Hspec.
  - intros Hno Hpath.
    assert (Full.url_podId pn req = Some "health") as Hp.
    { unfold Full.url_podId. by rewrite Hpath. }
    split; [done|].
    rewrite full_server_request_routing.
    + by rewrite Hp.
    + destruct (Full.is_health_request req); [|done].
      destruct Hno. by apply Hspec.
Qed.

Lemma health_endpoint_exact_match_witness :
  (Full.url_podId origin_form_pathname (Request "GET" "/health?x=1") = Some "health"
   /\ (Full.server_request sample_env sample_world origin_form_pathname
         (Request "GET" "/health?x=1") initial).1
      = Normal (Respond 504 "Pod not found or all replicas unhealthy"))
  /\ (Full.url_podId origin_form_pathname (Request "POST" "/health") = Some "health"
      /\ (Full.server_request sample_env sample_world origin_form_pathname
            (Request "POST" "/health") initial).1
         = Normal (Respond 504 "Pod not found or all replicas unhealthy")).
Proof.
  split.
  - destruct (health_endpoint_exact_match sample_env sample_world origin_form_pathname
                (Request "GET" "/health?x=1") initial) as (_ & _ & H).
    destruct H as [Hp ->].
    + intros [_ Hurl]. discriminate Hurl.
    + reflexivity.
    + split; [exact Hp|reflexivity].
  - destruct (health_endpoint_exact_match sample_env sample_world origin_form_pathname
                (Request "POST" "/health") initial) as (_ & _ & H).
    destruct H as [Hp ->].
    + intros [Hm _]. discriminate Hm.
    + reflexivity.
    + split; [exact Hp|reflexivity].
Defined.

(** The two requests next to the health endpoint reach discovery: the
    console shows the lookup of "health". *)
Example beside_health_endpoint :
  console (Full.server_request sample_env sample_world origin_form_pathname
             (Request "GET" "/health?x=1") initial).2
  = [LogHttp "GET" "/health?x=1" (Some "health"); LogCacheMiss "health";
     LogDns ["10.0.0.1"; "10.0.0.2"; "fd00::3"]; LogUnreachable "fd00::3";
     LogNotFound "health"; LogFail504 "health"]
  /\ (Full.server_request sample_env sample_world origin_form_pathname
        (Request "GET" "/health") initial).1
     = Normal (RespondHealth 503 "unhealthy" (Some "some_pods_unhealthy")
                 [Identified "10.0.0.1" "alpha"; Identified "10.0.0.2" "beta"]).
Proof. by vm_compute. Qed.

(** The minimal handler does not part the query string from the path: a
    target that is all query is taken for a podId, and discovery runs. *)
Example minimal_query_only_target :
  Minimal.url_podId (Request "GET" "/?room=1") = Some "?room=1"
  /\ io (Minimal.server_request sample_env empty_world (Request "GET" "/?room=1") initial).2
     = [IoResolve4 "colyseus.internal"; IoResolve6 "colyseus.internal"].
Proof. by vm_compute. Qed.

(** ** The outgoing calls of a round *)

Lemma full_probe_io e w x s :
  io (Full.probe e w x s).2 = io s ++ [IoGet (Full.probe_url e x) 3000].
Proof.
  unfold Full.probe. run.
  by destruct (axios_get w (Full.probe_url e x) 3000) as [[| | |[| | | | |[|]]]|].
Qed.

Lemma minimal_probe_io e w x s :
  io (Minimal.probe e w x s).2 = io s ++ [IoGet (Minimal.probe_url e x) 2500].
Proof.
  unfold Minimal.probe. run.
  by destruct (axios_get w (Minimal.probe_url e x) 2500) as [[| | |]|].
Qed.

Lemma health_probe_io e w x s :
  io (Full.health_probe e w x s).2 = io s ++ [IoGet (Full.probe_url e x) 2000].
Proof.
  unfold Full.health_probe. run.
  destruct (axios_get w (Full.probe_url e x) 2000) as [data|]; [|done]. simpl.
  destruct (optional_toString (optional_podId data)) as [[p|]|m]; simpl; try done.
  by destruct (truthy p).
Qed.

(** One call per task, in array order. *)
Lemma allSettled_io {A} (task : string -> JS A) (ev : string -> io_event) xs s :
  (forall x s, io (task x s).2 = io s ++ [ev x]) ->
  io (allSettled task xs s).2 = io s ++ map ev xs.
Proof.
  intros Hio. revert s. induction xs as [|x xs IH]; intros s; simpl.
  - by rewrite app_nil_r.
  - unfold mbind at 1, JS_bind at 1, settle.
    pose proof (Hio x s) as Hx. destruct (task x s) as [[a|msg] s1]; simpl in Hx;
      unfold mbind at 1, JS_bind at 1;
      pose proof (IH s1) as Hs1;
      destruct (allSettled task xs s1) as [[rs|m] s2]; simpl in Hs1 |- *;
      rewrite Hs1, Hx; by rewrite <- app_assoc.
Qed.

Lemma allSettled_spec {A} (task : string -> JS A) (ev : string -> io_event) xs s :
  (forall x, cache_free (task x)) ->
  (forall x s, io (task x s).2 = io s ++ [ev x]) ->
  exists s',
    allSettled task xs s = (Normal (map (fun x => outcome_of (task x)) xs), s')
    /\ POD_CACHE s' = POD_CACHE s
    /\ io s' = io s ++ map ev xs.
Proof.
  intros Hfree Hio. destruct (allSettled_run task xs s Hfree) as [d Hd].
  exists (extend s d). split; [done|]. split; [done|].
  pose proof (allSettled_io task ev xs s Hio) as H. by rewrite Hd in H.
Qed.

Lemma dns_calls_set e h :
  env_COLYSEUS_INTERNAL_URL e = Some h -> dns_calls e = [IoResolve4 h; IoResolve6 h].
Proof. intros H. unfold dns_calls. by rewrite H. Qed.

Lemma full_discovery_calls_unset e w :
  env_COLYSEUS_INTERNAL_URL e = None -> full_discovery_calls e w = [].
Proof.
  intros H. unfold full_discovery_calls, dns_calls.
  by rewrite H, (candidates_unset e w H).
Qed.

(** The full variant on a miss, with the state in which its loop starts. *)
Lemma full_discover_round e w podId h s :
  cache_miss w podId s ->
  env_COLYSEUS_INTERNAL_URL e = Some h ->
  candidates e w <> [] ->
  exists s1,
    Full.discoverAndGetIp e w podId s
    = Full.scan w podId (map (fun x => outcome_of (Full.probe e w x)) (candidates e w)) s1
    /\ POD_CACHE s1 = POD_CACHE s
    /\ io s1 = io s ++ full_discovery_calls e w.
Proof.
  intros Hmiss Hh Hc. unfold cache_miss in Hmiss.
  destruct (allSettled_spec (Full.probe e w)
              (fun x => IoGet (Full.probe_url e x) 3000) (candidates e w)
              (after_enumeration e w podId h s)
              (cache_free_full_probe e w) (full_probe_io e w)) as (s1 & Hd & Hcache & Hio).
  exists s1. split; [|split; [done|]].
  - unfold Full.discoverAndGetIp, mbind, JS_bind, cache_get. rewrite Hmiss.
    unfold try_catch, log at 1. simpl.
    unfold mbind, JS_bind. rewrite resolve_all_run, Hh. simpl.
    destruct (candidates e w) as [|x xs] eqn:E; [done|].
    unfold after_enumeration in *. rewrite E in *.
    replace ((console s ++ [LogCacheMiss podId]) ++ [LogDns (x :: xs)])
      with (console s ++ [LogCacheMiss podId; LogDns (x :: xs)])
      by (by rewrite <- app_assoc).
    by rewrite Hd.
  - rewrite Hio. unfold full_discovery_calls. rewrite (dns_calls_set e h Hh).
    simpl. by rewrite <- app_assoc.
Qed.

Lemma minimal_discover_round e w podId h s :
  cache_miss w podId s ->
  env_COLYSEUS_INTERNAL_URL e = Some h ->
  exists s1,
    Minimal.getIpForPod e w podId s
    = Minimal.scan w podId
        (map (fun x => outcome_of (Minimal.probe e w x)) (candidates e w)) s1
    /\ POD_CACHE s1 = POD_CACHE s
    /\ io s1 = io s ++ minimal_discovery_calls e w.
Proof.
  intros Hmiss Hh. unfold cache_miss in Hmiss.
  destruct (allSettled_spec (Minimal.probe e w)
              (fun x => IoGet (Minimal.probe_url e x) 2500) (candidates e w)
              (Proc (POD_CACHE s) (io s ++ [IoResolve4 h; IoResolve6 h]) (console s))
              (cache_free_minimal_probe e w) (minimal_probe_io e w))
    as (s1 & Hd & Hcache & Hio).
  exists s1. split; [|split; [done|]].
  - unfold Minimal.getIpForPod, mbind, JS_bind, cache_get. rewrite Hmiss.
    unfold Minimal.COLYSEUS_URL. rewrite Hh.
    rewrite (candidates_set e w h Hh) in *.
    run. rewrite <- app_assoc. simpl. by rewrite Hd.
  - rewrite Hio. unfold minimal_discovery_calls. rewrite (dns_calls_set e h Hh).
    simpl. by rewrite <- app_assoc.
Qed.

Lemma full_discovery_calls_no_ips e w h :
  env_COLYSEUS_INTERNAL_URL e = Some h ->
  candidates e w = [] ->
  full_discovery_calls e w = [IoResolve4 h; IoResolve6 h].
Proof.
  intros Hh Hc. unfold full_discovery_calls. by rewrite (dns_calls_set e h Hh), Hc.
Qed.

(** Every way a call of the full variant can go: a hit, a round without
    match, a round with a first match. *)
Lemma full_discover_cases e w podId s :
  exists r s',
    Full.discoverAndGetIp e w podId s = (Normal r, s')
    /\ ((exists c,
           POD_CACHE s !! podId = Some c /\ now_at_lookup w < expiresAt c
           /\ r = Some (ip c) /\ POD_CACHE s' = POD_CACHE s /\ io s' = io s)
        \/ (cache_miss w podId s
            /\ Forall (fun y => full_identifies e w podId y = false) (candidates e w)
            /\ r = None /\ POD_CACHE s' = POD_CACHE s
            /\ io s' = io s ++ full_discovery_calls e w)
        \/ (cache_miss w podId s
            /\ exists pre x post,
                 candidates e w = pre ++ x :: post
                 /\ Forall (fun y => full_identifies e w podId y = false) pre
                 /\ full_identifies e w podId x = true
                 /\ r = Some x
                 /\ POD_CACHE s'
                    = <[podId := CacheEntry x (now_at_store w + Full.TTL)]> (POD_CACHE s)
                 /\ io s' = io s ++ full_discovery_calls e w)).
Proof.
  destruct (cache_miss_or_hit w podId s) as [Hmiss|(c & Hc & Ht)].
  - destruct (env_COLYSEUS_INTERNAL_URL e) as [h|] eqn:Hh.
    + destruct (decide (candidates e w = [])) as [Hc|Hc].
      * rewrite (full_discover_no_ips e w podId h s Hmiss Hh Hc).
        eexists _, _. split; [reflexivity|]. right; left.
        rewrite (full_discovery_calls_no_ips e w h Hh Hc), Hc. by repeat split.
      * destruct (full_discover_round e w podId h s Hmiss Hh Hc)
          as (s1 & -> & Hcache & Hio).
        destruct (first_split (full_identifies e w podId) (candidates e w))
          as [Hnone|(pre & x & post & Hsplit & Hpre & Hx)].
        -- rewrite full_scan_none.
           ++ eexists _, _. split; [reflexivity|]. right; left. by repeat split.
           ++ eapply identifies_selected_none; [|exact Hnone].
              intros y. apply full_identifies_none.
        -- erewrite (f_equal (fun l => Full.scan w podId (map _ l) s1) Hsplit).
           rewrite map_app. simpl.
           rewrite (full_scan_first w podId _ _ _ x).
           ++ eexists _, _. split; [reflexivity|]. right; right.
              split; [done|]. exists pre, x, post. simpl. rewrite Hcache.
              by repeat split.
           ++ eapply identifies_selected_none; [|exact Hpre].
              intros y. apply full_identifies_none.
           ++ by apply full_identifies_selected.
    + rewrite (full_discover_unset e w podId s Hmiss Hh).
      eexists _, _. split; [reflexivity|]. right; left.
      rewrite (full_discovery_calls_unset e w Hh), (candidates_unset e w Hh).
      simpl. rewrite app_nil_r. by repeat split.
  - rewrite (full_discover_hit e w podId c s Hc Ht).
    eexists _, _. split; [reflexivity|]. left. exists c. by repeat split.
Qed.

(** Every way a call of the minimal variant can go. *)
Lemma minimal_discover_cases e w podId s :
  exists r s',
    Minimal.getIpForPod e w podId s = (r, s')
    /\ ((exists c,
           POD_CACHE s !! podId = Some c /\ now_at_lookup w < expiresAt c
           /\ r = Normal (Some (ip c)) /\ s' = s)
        \/ (cache_miss w podId s /\ env_COLYSEUS_INTERNAL_URL e = None
            /\ r = Thrown "ERR_INVALID_ARG_TYPE" /\ s' = s)
        \/ (cache_miss w podId s /\ is_Some (env_COLYSEUS_INTERNAL_URL e)
            /\ Forall (fun y => minimal_identifies e w podId y = false) (candidates e w)
            /\ r = Normal None /\ POD_CACHE s' = POD_CACHE s
            /\ io s' = io s ++ minimal_discovery_calls e w)
        \/ (cache_miss w podId s /\ is_Some (env_COLYSEUS_INTERNAL_URL e)
            /\ exists pre x post,
                 candidates e w = pre ++ x :: post
                 /\ Forall (fun y => minimal_identifies e w podId y = false) pre
                 /\ minimal_identifies e w podId x = true
                 /\ r = Normal (Some x)
                 /\ POD_CACHE s'
                    = <[podId := CacheEntry x (now_at_store w + Minimal.TTL)]> (POD_CACHE s)
                 /\ io s' = io s ++ minimal_discovery_calls e w)).
Proof.
  destruct (cache_miss_or_hit w podId s) as [Hmiss|(c & Hc & Ht)].
  - destruct (env_COLYSEUS_INTERNAL_URL e) as [h|] eqn:Hh.
    + destruct (minimal_discover_round e w podId h s Hmiss Hh)
        as (s1 & -> & Hcache & Hio).
      destruct (first_split (minimal_identifies e w podId) (candidates e w))
        as [Hnone|(pre & x & post & Hsplit & Hpre & Hx)].
      * rewrite minimal_scan_none.
        -- eexists _, _. split; [reflexivity|]. right; right; left.
           by repeat split.
        -- eapply identifies_selected_none; [|exact Hnone].
           intros y. apply minimal_identifies_none.
      * erewrite (f_equal (fun l => Minimal.scan w podId (map _ l) s1) Hsplit).
        rewrite map_app. simpl.
        rewrite (minimal_scan_first w podId _ _ _ x).
        -- eexists _, _. split; [reflexivity|]. right; right; right.
           split; [done|]. split; [done|]. exists pre, x, post. simpl. rewrite Hcache.
           by repeat split.
        -- eapply identifies_selected_none; [|exact Hpre].
           intros y. apply minimal_identifies_none.
        -- by apply minimal_identifies_selected.
    + rewrite (minimal_discover_unset e w podId s Hmiss Hh).
      eexists _, _. split; [reflexivity|]. right; left. by repeat split.
  - rewrite (minimal_discover_hit e w podId c s Hc Ht).
    eexists _, _. split; [reflexivity|]. left. exists c. by repeat split.
Qed.

(** A state is a miss or a hit, not both. *)
Lemma cache_miss_not_hit w podId s c :
  cache_miss w podId s ->
  POD_CACHE s !! podId = Some c ->
  expiresAt c <= now_at_lookup w.
Proof.
  unfold cache_miss, valid_entry. intros Hmiss Hc. rewrite Hc in Hmiss.
  destruct (Z.ltb_spec (now_at_lookup w) (expiresAt c)); [done|lia].
Qed.

Ltac full_cases e w podId s :=
  let r := fresh "r" in
  let s' := fresh "s'" in
  let Hrun := fresh "Hrun" in
  destruct (full_discover_cases e w podId s)
    as (r & s' & Hrun &
        [(?c & ?Hc & ?Ht & -> & ?Hcache & ?Hio)
        |[(?Hmiss & ?Hnone & -> & ?Hcache & ?Hio)
         |(?Hmiss & ?pre & ?x & ?post & ?Hsplit & ?Hpre & ?Hx & -> & ?Hcache & ?Hio)]]);
  rewrite ?Hrun in *; simpl in *.

Ltac minimal_cases e w podId s :=
  let r := fresh "r" in
  let s' := fresh "s'" in
  let Hrun := fresh "Hrun" in
  destruct (minimal_discover_cases e w podId s)
    as (r & s' & Hrun &
        [(?c & ?Hc & ?Ht & -> & ->)
        |[(?Hmiss & ?Hunset & -> & ->)
         |[(?Hmiss & ?Hset & ?Hnone & -> & ?Hcache & ?Hio)
          |(?Hmiss & ?Hset & ?pre & ?x & ?post & ?Hsplit & ?Hpre & ?Hx & -> & ?Hcache & ?Hio)]]]);
  rewrite ?Hrun in *; simpl in *.

Lemma full_miss_io e w podId s :
  cache_miss w podId s ->
  io (Full.discoverAndGetIp e w podId s).2 = io s ++ full_discovery_calls e w.
Proof.
  intros Hm. full_cases e w podId s; try done.
  pose proof (cache_miss_not_hit w podId s c Hm Hc). lia.
Qed.

Lemma minimal_miss_io e w podId s :
  cache_miss w podId s ->
  is_Some (env_COLYSEUS_INTERNAL_URL e) ->
  io (Minimal.getIpForPod e w podId s).2 = io s ++ minimal_discovery_calls e w.
Proof.
  intros Hm [h Hh]. minimal_cases e w podId s; try done.
  - pose proof (cache_miss_not_hit w podId s c Hm Hc). lia.
  - congruence.
Qed.

(** X1: on a cache miss the full variant sends the two queries and then
    one GET per candidate, in candidate order and with a timeout of 3000,
    whether or not (and wherever) a candidate matches: the loop over the
    results starts when every probe has settled.  Without a hostname it
    sends nothing. *)
Theorem full_miss_calls_exact e w podId s :
  cache_miss w podId s ->
  io (Full.discoverAndGetIp e w podId s).2 = io s ++ full_discovery_calls e w.
Proof. apply full_miss_io. Qed.

Lemma full_miss_calls_exact_witness :
  full_identifies sample_env sample_world "alpha" "10.0.0.1" = true
  /\ io (Full.discoverAndGetIp sample_env sample_world "alpha" initial).2
     = [IoResolve4 "colyseus.internal"; IoResolve6 "colyseus.internal";
        IoGet "http://10.0.0.1:2567/podid" 3000;
        IoGet "http://10.0.0.2:2567/podid" 3000;
        IoGet "http://[fd00::3]:2567/podid" 3000].
Proof.
  split; [reflexivity|].
  exact (full_miss_calls_exact sample_env sample_world "alpha" initial eq_refl).
Defined.

(** X2: on a cache miss, with the hostname configured, the minimal
    variant sends the IPv4 query, the IPv6 query, and one GET per
    candidate, in candidate order and with a timeout of 2500, whether or
    not a candidate matches. *)
Theorem minimal_miss_calls_exact e w podId s :
  cache_miss w podId s ->
  is_Some (env_COLYSEUS_INTERNAL_URL e) ->
  io (Minimal.getIpForPod e w podId s).2 = io s ++ minimal_discovery_calls e w.
Proof. apply minimal_miss_io. Qed.

Lemma minimal_miss_calls_exact_witness :
  io (Minimal.getIpForPod sample_env sample_world "alpha" initial).2
  = [IoResolve4 "colyseus.internal"; IoResolve6 "colyseus.internal";
     IoGet "http://10.0.0.1:2567/podid" 2500;
     IoGet "http://10.0.0.2:2567/podid" 2500;
     IoGet "http://fd00::3:2567/podid" 2500].
Proof.
  apply (minimal_miss_calls_exact sample_env sample_world "alpha" initial).
  - reflexivity.
  - by eexists.
Defined.

(** X3: a call of discovery, however it ends, leaves every cache entry
    of another podId as it was and removes no entry: the only change it
    can make is to set the entry of the podId it was asked for. *)
Theorem discovery_cache_frame e w podId s k :
  ((k <> podId ->
    POD_CACHE (Full.discoverAndGetIp e w podId s).2 !! k = POD_CACHE s !! k)
   /\ (is_Some (POD_CACHE s !! k) ->
       is_Some (POD_CACHE (Full.discoverAndGetIp e w podId s).2 !! k)))
  /\ ((k <> podId ->
       POD_CACHE (Minimal.getIpForPod e w podId s).2 !! k = POD_CACHE s !! k)
      /\ (is_Some (POD_CACHE s !! k) ->
          is_Some (POD_CACHE (Minimal.getIpForPod e w podId s).2 !! k))).
Proof.
  split.
  - full_cases e w podId s; rewrite Hcache; split; try done.
    + intros Hk. by rewrite lookup_insert_ne.
    + intros Hk. rewrite lookup_insert. by case_decide.
  - minimal_cases e w podId s; try rewrite Hcache; split; try done.
    + intros Hk. by rewrite lookup_insert_ne.
    + intros Hk. rewrite lookup_insert. by case_decide.
Qed.

(** X4: on a cache miss, an address that discovery returns is an address
    that DNS resolved and whose backend reports the podId asked for, and
    no candidate before it does; and when discovery returns [null], no
    candidate's backend reports it. *)
Theorem discovery_result_sound e w podId s :
  cache_miss w podId s ->
  ((forall a,
      (Full.discoverAndGetIp e w podId s).1 = Normal (Some a) ->
      resolves e w a
      /\ full_reports e w a podId
      /\ exists pre post,
           candidates e w = pre ++ a :: post
           /\ Forall (fun z => ~ full_reports e w z podId) pre)
   /\ ((Full.discoverAndGetIp e w podId s).1 = Normal None ->
       forall z, resolves e w z -> ~ full_reports e w z podId))
  /\ ((forall a,
         (Minimal.getIpForPod e w podId s).1 = Normal (Some a) ->
         resolves e w a
         /\ minimal_reports e w a podId
         /\ exists pre post,
              candidates e w = pre ++ a :: post
              /\ Forall (fun z => ~ minimal_reports e w z podId) pre)
      /\ ((Minimal.getIpForPod e w podId s).1 = Normal None ->
          forall z, resolves e w z -> ~ minimal_reports e w z podId)).
Proof.
  intros Hm. split.
  - full_cases e w podId s.
    + pose proof (cache_miss_not_hit w podId s c Hm Hc). lia.
    + split; [intros a Ha; simplify_eq|]. intros _ z Hz%candidates_resolves.
      apply full_none_report in Hnone. by apply (proj1 (Forall_forall _ _) Hnone).
    + split; [|done]. intros a Ha. simplify_eq. split; [|split].
      * apply candidates_resolves. rewrite Hsplit. apply elem_of_app. right. by left.
      * by apply full_identifies_reports.
      * exists pre, post. split; [done|]. by apply full_none_report.
  - minimal_cases e w podId s.
    + pose proof (cache_miss_not_hit w podId s c Hm Hc). lia.
    + split; [intros a Ha; simplify_eq|done].
    + split; [intros a Ha; simplify_eq|]. intros _ z Hz%candidates_resolves.
      apply minimal_none_report in Hnone. by apply (proj1 (Forall_forall _ _) Hnone).
    + split; [|done]. intros a Ha. simplify_eq. split; [|split].
      * apply candidates_resolves. rewrite Hsplit. apply elem_of_app. right. by left.
      * by apply minimal_identifies_reports.
      * exists pre, post. split; [done|]. by apply minimal_none_report.
Qed.

Lemma discovery_result_sound_witness :
  (resolves sample_env sample_world "10.0.0.2"
   /\ full_reports sample_env sample_world "10.0.0.2" "beta"
   /\ exists pre post,
        candidates sample_env sample_world = pre ++ "10.0.0.2" :: post
        /\ Forall (fun z => ~ full_reports sample_env sample_world z "beta") pre)
  /\ (resolves sample_env sample_world "10.0.0.2"
      /\ minimal_reports sample_env sample_world "10.0.0.2" "beta"
      /\ exists pre post,
           candidates sample_env sample_world = pre ++ "10.0.0.2" :: post
           /\ Forall (fun z => ~ minimal_reports sample_env sample_world z "beta") pre)
  /\ (forall z, resolves sample_env sample_world z ->
               ~ minimal_reports sample_env sample_world z "gamma").
Proof.
  destruct (discovery_result_sound sample_env sample_world "beta" initial)
    as [[HF _] [HM _]]; [reflexivity|].
  destruct (discovery_result_sound sample_env sample_world "gamma" initial)
    as [_ [_ HN]]; [reflexivity|].
  split; [|split].
  - apply HF. reflexivity.
  - apply HM. reflexivity.
  - apply HN. reflexivity.
Defined.

(** X5: an address that discovery returns is, after the call, the address
    of the cache entry of the podId asked for; and if the clock has not
    gone backwards between lookup and store, that entry was still valid
    when the call consulted the clock. *)
Theorem returned_address_is_cached e w podId s a :
  ((Full.discoverAndGetIp e w podId s).1 = Normal (Some a) ->
   exists c,
     POD_CACHE (Full.discoverAndGetIp e w podId s).2 !! podId = Some c
     /\ ip c = a
     /\ (now_at_lookup w <= now_at_store w -> now_at_lookup w < expiresAt c))
  /\ ((Minimal.getIpForPod e w podId s).1 = Normal (Some a) ->
      exists c,
        POD_CACHE (Minimal.getIpForPod e w podId s).2 !! podId = Some c
        /\ ip c = a
        /\ (now_at_lookup w <= now_at_store w -> now_at_lookup w < expiresAt c)).
Proof.
  split.
  - full_cases e w podId s; intros Ha; simplify_eq.
    + exists c. by rewrite Hcache.
    + eexists. rewrite Hcache, lookup_insert_eq. split; [done|]. split; [done|].
      simpl. unfold Full.TTL. lia.
  - minimal_cases e w podId s; intros Ha; simplify_eq.
    + by exists c.
    + eexists. rewrite Hcache, lookup_insert_eq. split; [done|]. split; [done|].
      simpl. unfold Minimal.TTL. lia.
Qed.

Lemma returned_address_is_cached_witness :
  exists c,
    POD_CACHE (Full.discoverAndGetIp sample_env sample_world "beta" initial).2 !! "beta"
    = Some c
    /\ ip c = "10.0.0.2"
    /\ (now_at_lookup sample_world <= now_at_store sample_world ->
        now_at_lookup sample_world < expiresAt c).
Proof.
  destruct (returned_address_is_cached sample_env sample_world "beta" initial "10.0.0.2")
    as [HF _].
  apply HF. reflexivity.
Defined.

(** ** A second call *)

(** What the cache holds for the podId after a round that found it. *)
Lemma full_found_entry e w podId s x :
  cache_miss w podId s ->
  (Full.discoverAndGetIp e w podId s).1 = Normal (Some x) ->
  POD_CACHE (Full.discoverAndGetIp e w podId s).2 !! podId
  = Some (CacheEntry x (now_at_store w + Full.TTL)).
Proof.
  intros Hm. full_cases e w podId s; intros Ha; simplify_eq.
  - pose proof (cache_miss_not_hit w podId s c Hm Hc). lia.
  - by rewrite Hcache, lookup_insert_eq.
Qed.

Lemma minimal_found_entry e w podId s x :
  cache_miss w podId s ->
  (Minimal.getIpForPod e w podId s).1 = Normal (Some x) ->
  POD_CACHE (Minimal.getIpForPod e w podId s).2 !! podId
  = Some (CacheEntry x (now_at_store w + Minimal.TTL))
  /\ is_Some (env_COLYSEUS_INTERNAL_URL e).
Proof.
  intros Hm. minimal_cases e w podId s; intros Ha; simplify_eq.
  - pose proof (cache_miss_not_hit w podId s c Hm Hc). lia.
  - by rewrite Hcache, lookup_insert_eq.
Qed.

(** X6: after a round that found the podId and stored it at time T, a
    later call that reads the clock before T + TTL returns the same
    address from the cache: it sends nothing, whatever DNS and the
    backends would answer by then. *)
Theorem rediscovery_within_ttl e w w2 podId s x :
  cache_miss w podId s ->
  ((Full.discoverAndGetIp e w podId s).1 = Normal (Some x) ->
   now_at_lookup w2 < now_at_store w + Full.TTL ->
   Full.discoverAndGetIp e w2 podId (Full.discoverAndGetIp e w podId s).2
   = (Normal (Some x),
      after_log (Full.discoverAndGetIp e w podId s).2 (LogCacheHit podId x)))
  /\ ((Minimal.getIpForPod e w podId s).1 = Normal (Some x) ->
      now_at_lookup w2 < now_at_store w + Minimal.TTL ->
      Minimal.getIpForPod e w2 podId (Minimal.getIpForPod e w podId s).2
      = (Normal (Some x), (Minimal.getIpForPod e w podId s).2)).
Proof.
  intros Hm. split; intros Hx Ht.
  - pose proof (full_found_entry e w podId s x Hm Hx) as Hentry.
    by rewrite (full_discover_hit e w2 podId _ _ Hentry).
  - destruct (minimal_found_entry e w podId s x Hm Hx) as [Hentry _].
    by rewrite (minimal_discover_hit e w2 podId _ _ Hentry).
Qed.

Lemma rediscovery_within_ttl_witness :
  (Full.discoverAndGetIp sample_env (later_world 19199) "beta"
     (Full.discoverAndGetIp sample_env sample_world "beta" initial).2).1
  = Normal (Some "10.0.0.2")
  /\ io (Full.discoverAndGetIp sample_env (later_world 19199) "beta"
           (Full.discoverAndGetIp sample_env sample_world "beta" initial).2).2
     = io (Full.discoverAndGetIp sample_env sample_world "beta" initial).2.
Proof.
  destruct (rediscovery_within_ttl sample_env sample_world (later_world 19199)
              "beta" initial "10.0.0.2") as [HF _].
  - reflexivity.
  - rewrite HF; [by split|reflexivity|reflexivity].
Defined.

(** X7: the entry stops counting at T + TTL exactly: a later call that
    reads the clock at T + TTL or after is a cache miss and runs a whole
    new round, queries and probes, against the world of that time. *)
Theorem rediscovery_after_ttl e w w2 podId s x :
  cache_miss w podId s ->
  ((Full.discoverAndGetIp e w podId s).1 = Normal (Some x) ->
   now_at_store w + Full.TTL <= now_at_lookup w2 ->
   cache_miss w2 podId (Full.discoverAndGetIp e w podId s).2
   /\ io (Full.discoverAndGetIp e w2 podId (Full.discoverAndGetIp e w podId s).2).2
      = io (Full.discoverAndGetIp e w podId s).2 ++ full_discovery_calls e w2)
  /\ ((Minimal.getIpForPod e w podId s).1 = Normal (Some x) ->
      now_at_store w + Minimal.TTL <= now_at_lookup w2 ->
      cache_miss w2 podId (Minimal.getIpForPod e w podId s).2
      /\ io (Minimal.getIpForPod e w2 podId (Minimal.getIpForPod e w podId s).2).2
         = io (Minimal.getIpForPod e w podId s).2 ++ minimal_discovery_calls e w2).
Proof.
  intros Hm. split; intros Hx Ht.
  - pose proof (full_found_entry e w podId s x Hm Hx) as Hentry.
    assert (cache_miss w2 podId (Full.discoverAndGetIp e w podId s).2) as Hm2.
    { unfold cache_miss, valid_entry. rewrite Hentry. simpl.
      by rewrite (proj2 (Z.ltb_ge _ _) Ht). }
    split; [done|]. by apply full_miss_io.
  - destruct (minimal_found_entry e w podId s x Hm Hx) as [Hentry Hset].
    assert (cache_miss w2 podId (Minimal.getIpForPod e w podId s).2) as Hm2.
    { unfold cache_miss, valid_entry. rewrite Hentry. simpl.
      by rewrite (proj2 (Z.ltb_ge _ _) Ht). }
    split; [done|]. by apply minimal_miss_io.
Qed.

Lemma rediscovery_after_ttl_witness :
  cache_miss (later_world 19200) "beta"
    (Full.discoverAndGetIp sample_env sample_world "beta" initial).2
  /\ io (Full.discoverAndGetIp sample_env (later_world 19200) "beta"
           (Full.discoverAndGetIp sample_env sample_world "beta" initial).2).2
     = io (Full.discoverAndGetIp sample_env sample_world "beta" initial).2
       ++ full_discovery_calls sample_env (later_world 19200).
Proof.
  destruct (rediscovery_after_ttl sample_env sample_world (later_world 19200)
              "beta" initial "10.0.0.2") as [HF _].
  - reflexivity.
  - apply HF; reflexivity.
Defined.

(** ** The candidates *)

(** X8: with the hostname configured, the candidates of a round are the
    set, in insertion order, of the addresses of the IPv4 answer followed
    by those of the IPv6 answer: every resolved address once, at the
    place of its first occurrence.  A rejected query counts as an empty
    answer and does not fail the other. *)
Theorem candidates_dedup_union e w h ipv4 ipv6 :
  env_COLYSEUS_INTERNAL_URL e = Some h ->
  (resolve4 w h = DnsResolved ipv4 \/ resolve4 w h = DnsRejected /\ ipv4 = []) ->
  (resolve6 w h = DnsResolved ipv6 \/ resolve6 w h = DnsRejected /\ ipv6 = []) ->
  candidates e w = set_of (ipv4 ++ ipv6)
  /\ NoDup (candidates e w)
  /\ (forall x, x ∈ candidates e w <-> x ∈ ipv4 \/ x ∈ ipv6).
Proof.
  intros Hh H4 H6.
  assert (catch_empty (resolve4 w h) = ipv4) as E4.
  { by destruct H4 as [->|[-> ->]]. }
  assert (catch_empty (resolve6 w h) = ipv6) as E6.
  { by destruct H6 as [->|[-> ->]]. }
  rewrite (candidates_set e w h Hh), E4, E6.
  split; [apply set_spread_set_of|]. split; [apply set_spread_NoDup|].
  intros x. by rewrite set_spread_elem, elem_of_app.
Qed.

Lemma candidates_dedup_union_witness :
  (candidates sample_env sample_world = ["10.0.0.1"; "10.0.0.2"; "fd00::3"]
   /\ NoDup (candidates sample_env sample_world)
   /\ (forall x,
         x ∈ candidates sample_env sample_world
         <-> x ∈ ["10.0.0.1"; "10.0.0.2"] \/ x ∈ ["10.0.0.2"; "fd00::3"]))
  /\ (candidates sample_env faulty_world = ["fd00::1"; "fd00::2"; "fd00::3"; "fd00::4"]
      /\ NoDup (candidates sample_env faulty_world)
      /\ (forall x,
            x ∈ candidates sample_env faulty_world
            <-> x ∈ [] \/ x ∈ ["fd00::1"; "fd00::2"; "fd00::3"; "fd00::4"])).
Proof.
  split.
  - apply (candidates_dedup_union sample_env sample_world "colyseus.internal"
             ["10.0.0.1"; "10.0.0.2"] ["10.0.0.2"; "fd00::3"]);
      [reflexivity|by left|by left].
  - apply (candidates_dedup_union sample_env faulty_world "colyseus.internal"
             [] ["fd00::1"; "fd00::2"; "fd00::3"; "fd00::4"]);
      [reflexivity|by right|by left].
Defined.

(** ** Identities that are not strings *)

(** X9: a backend whose body carries its podId as a number is found by
    the full variant under what toString prints for that number, and is
    never returned by the minimal variant on a miss, whatever podId is
    asked for: the one compares the printed identity, the other the raw
    value. *)
Theorem numeric_identity e w x print pre post :
  candidates e w = pre ++ x :: post ->
  Forall (fun z => ~ full_reports e w z print) pre ->
  axios_get w (Full.probe_url e x) 3000 = HttpOk (DObject (VNum print)) ->
  axios_get w (Minimal.probe_url e x) 2500 = HttpOk (DObject (VNum print)) ->
  (forall s, cache_miss w print s ->
             (Full.discoverAndGetIp e w print s).1 = Normal (Some x))
  /\ (forall podId s, cache_miss w podId s ->
                      (Minimal.getIpForPod e w podId s).1 <> Normal (Some x)).
Proof.
  intros Hc Hpre HF HM. split.
  - intros s Hm.
    destruct (full_discover_first e w print s pre x post) as (s' & -> & _); try done.
    + by apply full_none_report.
    + apply full_identifies_reports. exists (VNum print). split; [done|constructor].
  - intros podId s Hm Hrun. minimal_cases e w podId s; simplify_eq.
    + pose proof (cache_miss_not_hit w podId s c Hm Hc0). lia.
    + apply minimal_identifies_reports in Hx. unfold minimal_reports in Hx.
      rewrite HM in Hx. discriminate Hx.
Qed.

Lemma numeric_identity_witness :
  (forall s, cache_miss numeric_world "7" s ->
             (Full.discoverAndGetIp sample_env numeric_world "7" s).1
             = Normal (Some "10.0.0.7"))
  /\ (forall podId s, cache_miss numeric_world podId s ->
                      (Minimal.getIpForPod sample_env numeric_world podId s).1
                      <> Normal (Some "10.0.0.7")).
Proof.
  apply (numeric_identity sample_env numeric_world "10.0.0.7" "7" ["10.0.0.6"] []);
    try reflexivity.
  constructor; [|constructor]. intros (v & Hv & Hp).
  vm_compute in Hv. injection Hv as <-. inversion Hp.
Defined.

(** The number 7 is found under "7" by the full variant only. *)
Example numeric_world_seven :
  (Full.discoverAndGetIp sample_env numeric_world "7" initial).1
  = Normal (Some "10.0.0.7")
  /\ (Minimal.getIpForPod sample_env numeric_world "7" initial).1 = Normal None.
Proof. by vm_compute. Qed.

(** X10: for a backend that answers the health probe as it answers the
    discovery probe, and a non-empty podId, the health check lists the
    address under that podId exactly when discovery accepts the address
    for it. *)
Theorem health_entry_iff_identifies e w x podId :
  axios_get w (Full.probe_url e x) 2000 = axios_get w (Full.probe_url e x) 3000 ->
  podId <> EmptyString ->
  parsable_identity e w x = Some (Identified x podId)
  <-> full_identifies e w podId x = true.
Proof.
  intros Hsame Hne.
  rewrite parsable_identity_world, full_identifies_world, Hsame. split.
  - intros (v & p & Hv & Hs & _ & Heq). simplify_eq. by exists v.
  - intros (v & Hv & Hs). by exists v, podId.
Qed.

Lemma health_entry_iff_identifies_witness :
  parsable_identity sample_env sample_world "10.0.0.2" = Some (Identified "10.0.0.2" "beta")
  <-> full_identifies sample_env sample_world "beta" "10.0.0.2" = true.
Proof.
  apply (health_entry_iff_identifies sample_env sample_world "10.0.0.2" "beta").
  - reflexivity.
  - discriminate.
Defined.

(** ** The health check, case by case *)

Lemma health_calls_unset e w :
  env_COLYSEUS_INTERNAL_URL e = None -> health_calls e w = [].
Proof.
  intros H. unfold health_calls, dns_calls. by rewrite H, (candidates_unset e w H).
Qed.

Lemma health_cases e w s :
  exists h s',
    Full.checkAllPodsHavePodId e w s = (Normal h, s')
    /\ POD_CACHE s' = POD_CACHE s
    /\ io s' = io s ++ health_calls e w
    /\ ((env_COLYSEUS_INTERNAL_URL e = None /\ h = Full.Unhealthy "dns_error" None)
        \/ (is_Some (env_COLYSEUS_INTERNAL_URL e) /\ candidates e w = []
            /\ h = Full.Unhealthy "no_ips" None)
        \/ (candidates e w <> []
            /\ Forall (fun x => is_Some (parsable_identity e w x)) (candidates e w)
            /\ h = Full.HealthOk (omap (parsable_identity e w) (candidates e w)))
        \/ (candidates e w <> []
            /\ ~ Forall (fun x => is_Some (parsable_identity e w x)) (candidates e w)
            /\ h = Full.Unhealthy "some_pods_unhealthy"
                     (Some (omap (parsable_identity e w) (candidates e w))))).
Proof.
  unfold Full.checkAllPodsHavePodId, mbind at 1, JS_bind at 1.
  unfold try_catch, mbind at 1, JS_bind at 1.
  rewrite resolve_all_run.
  destruct (env_COLYSEUS_INTERNAL_URL e) as [host|] eqn:Hh.
  - unfold mbind at 1, JS_bind at 1, log at 1, mret at 1, JS_ret at 1.
    unfold health_calls. rewrite (dns_calls_set e host Hh).
    destruct (candidates e w) as [|x xs] eqn:E.
    + eexists _, _. split; [reflexivity|]. split; [done|]. split; [done|].
      right; left. by repeat split.
    + unfold mbind at 1, JS_bind at 1.
      match goal with
      | |- context [allSettled ?t ?l ?st] =>
          destruct (allSettled_spec t (fun x => IoGet (Full.probe_url e x) 2000) l st
                      (cache_free_health_probe e w) (health_probe_io e w))
            as (s1 & Hd & Hcache & Hio)
      end.
      rewrite Hd.
      pose proof (no_rejected_parsable e w (x :: xs)) as Hrej.
      rewrite fulfilled_values_parsable.
      destruct (List.filter Full.is_rejected
                  (map (fun x0 => outcome_of (Full.health_probe e w x0)) (x :: xs)))
        as [|r rs] eqn:Ef.
      * eexists _, _. split; [reflexivity|]. split; [done|].
        split; [rewrite Hio; simpl; by rewrite <- app_assoc|].
        right; right; left. split; [done|]. split; [by apply Hrej|done].
      * eexists _, _. split; [reflexivity|]. split; [done|].
        split; [simpl; rewrite Hio; simpl; by rewrite <- app_assoc|].
        right; right; right. split; [done|]. split; [|done].
        intros Hall. by apply Hrej in Hall.
  - eexists _, _. split; [reflexivity|]. split; [done|].
    split; [by rewrite (health_calls_unset e w Hh), app_nil_r|].
    left. by split.
Qed.

Lemma omap_parsable_elem e w (xs : list string) x p :
  Identified x p ∈ omap (parsable_identity e w) xs
  <-> x ∈ xs /\ health_reports e w x p.
Proof.
  rewrite list_elem_of_omap. split.
  - intros (y & Hy & (q & Heq & Hq)%parsable_health_reports). by simplify_eq.
  - intros [Hx Hp]. exists x. split; [done|]. apply parsable_health_reports. by exists p.
Qed.

Lemma omap_parsable_sublist e w (xs : list string) :
  (identified_ip <$> omap (parsable_identity e w) xs) `sublist_of` xs.
Proof.
  induction xs as [|x xs IH]; simpl; [done|].
  destruct (parsable_identity e w x) as [entry|] eqn:E; simpl.
  - apply parsable_health_reports in E as (p & -> & _). simpl. by apply sublist_skip.
  - by apply sublist_cons.
Qed.

(** C2: the health check returns ok if and only if at least one
    candidate address resolves and every resolved address answers the
    health probe with a podId that prints as a non-empty string;
    otherwise it returns unhealthy with a reason: dns_error when the DNS
    call fails (no hostname to resolve), no_ips when no address resolves,
    some_pods_unhealthy when some address resolves and some resolved
    address gives no such answer, and then with the list of the addresses
    that did, each with the podId it reported, in candidate order. *)
Theorem health_ok_iff e w s :
  exists h s',
    Full.checkAllPodsHavePodId e w s = (Normal h, s')
    /\ (Full.ok h = true <->
        (exists x, resolves e w x)
        /\ forall x, resolves e w x -> exists p, health_reports e w x p)
    /\ (Full.ok h = false ->
        exists reason success,
          h = Full.Unhealthy reason success
          /\ (reason = "dns_error" \/ reason = "no_ips" \/ reason = "some_pods_unhealthy")
          /\ (reason = "dns_error" <-> env_COLYSEUS_INTERNAL_URL e = None)
          /\ (reason = "no_ips" <->
              is_Some (env_COLYSEUS_INTERNAL_URL e) /\ ~ exists x, resolves e w x)
          /\ (reason = "some_pods_unhealthy" <-> exists x, resolves e w x)
          /\ (reason = "some_pods_unhealthy" ->
              exists entries,
                success = Some entries
                /\ (forall x p,
                      Identified x p ∈ entries
                      <-> resolves e w x /\ health_reports e w x p)
                /\ (identified_ip <$> entries) `sublist_of` candidates e w)).
Proof.
  destruct (health_cases e w s) as (h & s' & Hrun & _ & _ & Hcases).
  exists h, s'. split; [done|].
  assert (Forall (fun x => is_Some (parsable_identity e w x)) (candidates e w)
          <-> forall x, resolves e w x -> exists p, health_reports e w x p) as Hall.
  { rewrite Forall_forall. split; intros H x Hx.
    - apply parsable_is_Some, H. by apply candidates_resolves.
    - apply parsable_is_Some, H. by apply candidates_resolves. }
  pose proof (candidates_nonempty e w) as Hne.
  destruct Hcases as [[Hu ->]|[([hn Hh] & Hc & ->)|[(Hc & Hok & ->)|(Hc & Hbad & ->)]]];
    simpl.
  - assert (~ exists x, resolves e w x) as Hno.
    { intros (x & h & Hh & _). congruence. }
    split; [split; [done|by intros [? _]]|]. intros _.
    eexists _, _. split; [reflexivity|]. split; [by left|].
    split; [done|]. split; [split; [done|intros [[? ?] _]; congruence]|].
    split; [split; [done|by intros ?]|done].
  - assert (~ exists x, resolves e w x) as Hno.
    { intros Hx%Hne. done. }
    split; [split; [done|by intros [? _]]|]. intros _.
    eexists _, _. split; [reflexivity|]. split; [by right; left|].
    split; [split; [done|congruence]|]. split; [split; [done|done]|].
    split; [split; [done|by intros ?]|done].
  - split; [|done]. split; [|done]. intros _. split; [by apply Hne|by apply Hall].
  - split; [split; [done|intros [_ H]; by apply Hall in H]|]. intros _.
    eexists _, _. split; [reflexivity|]. split; [by right; right|].
    split; [split; [done|intros Hu; by rewrite (candidates_unset e w Hu) in Hc]|].
    split; [split; [done|intros [_ Hno]; destruct Hno; by apply Hne]|].
    split; [split; [intros _; by apply Hne|done]|]. intros _.
    eexists. split; [reflexivity|]. split.
    + intros x p. by rewrite omap_parsable_elem, candidates_resolves.
    + apply omap_parsable_sublist.
Qed.

Lemma health_ok_iff_witness :
  (exists h s',
     Full.checkAllPodsHavePodId sample_env twin_world initial = (Normal h, s')
     /\ Full.ok h = true)
  /\ (exists h s',
        Full.checkAllPodsHavePodId sample_env faulty_world initial = (Normal h, s')
        /\ Full.ok h = false).
Proof.
  split.
  - destruct (health_ok_iff sample_env twin_world initial) as (h & s' & Hrun & Hok & _).
    exists h, s'. split; [exact Hrun|]. apply Hok. split.
    + exists "10.0.0.1", "colyseus.internal". split; [reflexivity|].
      left. eexists. split; [reflexivity|]. by left.
    + intros x (hn & Hh & [(l & Hl & Hx)|(l & Hl & Hx)]).
      * vm_compute in Hl. injection Hl as <-.
        exists "alpha". split; [|discriminate]. exists (VStr "alpha").
        split; [|constructor].
        apply elem_of_cons in Hx as [->|Hx]; [reflexivity|].
        apply list_elem_of_singleton in Hx as ->. reflexivity.
      * vm_compute in Hl. discriminate Hl.
  - destruct (health_ok_iff sample_env faulty_world initial) as (h & s' & Hrun & Hok & _).
    exists h, s'. split; [exact Hrun|].
    destruct (Full.ok h); [|reflexivity]. exfalso.
    destruct Hok as [Hok _]. destruct (Hok eq_refl) as [_ Hall].
    destruct (Hall "fd00::1") as (p & (v & Hv & _) & _).
    + exists "colyseus.internal". split; [reflexivity|].
      right. eexists. split; [reflexivity|]. by left.
    + vm_compute in Hv. discriminate Hv.
Defined.

(** X11: the health check neither reads nor writes the cache; it sends
    the two queries and one GET per candidate with a timeout of 2000; and
    its verdict is decided by the environment alone: dns_error when no
    hostname is configured, no_ips when the queries give no address,
    ok with every candidate's entry when all probes succeed, and
    some_pods_unhealthy with the entries of those that did otherwise. *)
Theorem health_check_verdict e w s :
  POD_CACHE (Full.checkAllPodsHavePodId e w s).2 = POD_CACHE s
  /\ io (Full.checkAllPodsHavePodId e w s).2 = io s ++ health_calls e w
  /\ (env_COLYSEUS_INTERNAL_URL e = None ->
      (Full.checkAllPodsHavePodId e w s).1 = Normal (Full.Unhealthy "dns_error" None))
  /\ (is_Some (env_COLYSEUS_INTERNAL_URL e) -> candidates e w = [] ->
      (Full.checkAllPodsHavePodId e w s).1 = Normal (Full.Unhealthy "no_ips" None))
  /\ (candidates e w <> [] ->
      Forall (fun x => is_Some (parsable_identity e w x)) (candidates e w) ->
      (Full.checkAllPodsHavePodId e w s).1
      = Normal (Full.HealthOk (omap (parsable_identity e w) (candidates e w))))
  /\ (candidates e w <> [] ->
      ~ Forall (fun x => is_Some (parsable_identity e w x)) (candidates e w) ->
      (Full.checkAllPodsHavePodId e w s).1
      = Normal (Full.Unhealthy "some_pods_unhealthy"
                  (Some (omap (parsable_identity e w) (candidates e w))))).
Proof.
  destruct (health_cases e w s) as (h & s' & -> & Hcache & Hio & Hcases). simpl.
  split; [done|]. split; [done|].
  destruct Hcases as [[Hu ->]|[([hn Hh] & Hc & ->)|[(Hc & Hall & ->)|(Hc & Hall & ->)]]].
  - repeat split; try done.
    + intros [? ?]; congruence.
    + intros Hne. by rewrite (candidates_unset e w Hu) in Hne.
    + intros Hne. by rewrite (candidates_unset e w Hu) in Hne.
  - repeat split; try done. congruence.
  - repeat split; try done.
    intros Hu. by rewrite (candidates_unset e w Hu) in Hc.
  - repeat split; try done.
    intros Hu. by rewrite (candidates_unset e w Hu) in Hc.
Qed.

Lemma health_check_verdict_witness :
  (Full.checkAllPodsHavePodId (Env None None) sample_world warm_cache).1
  = Normal (Full.Unhealthy "dns_error" None)
  /\ (Full.checkAllPodsHavePodId sample_env empty_world warm_cache).1
     = Normal (Full.Unhealthy "no_ips" None)
  /\ (Full.checkAllPodsHavePodId sample_env twin_world warm_cache).1
     = Normal (Full.HealthOk
                 (omap (parsable_identity sample_env twin_world)
                       (candidates sample_env twin_world))).
Proof.
  split; [|split].
  - by apply (health_check_verdict (Env None None) sample_world warm_cache).
  - apply (health_check_verdict sample_env empty_world warm_cache);
      [by eexists|reflexivity].
  - apply (health_check_verdict sample_env twin_world warm_cache);
      [discriminate|]. repeat constructor; by eexists.
Defined.

(** X12: the answer to GET /health always carries, as its pod list, the
    entries of the candidates whose probe succeeded (none when nothing
    resolved); its status is 200 exactly when there is a candidate and
    every candidate's probe succeeded, and 503 otherwise; the cache is
    not touched. *)
Theorem health_endpoint_answer e w pn req s :
  method req = "GET" ->
  url req = "/health" ->
  exists status state reason,
    (Full.server_request e w pn req s).1
    = Normal (RespondHealth status state reason
                (omap (parsable_identity e w) (candidates e w)))
    /\ (status = 200 \/ status = 503)
    /\ (status = 200 <->
        candidates e w <> []
        /\ Forall (fun x => is_Some (parsable_identity e w x)) (candidates e w))
    /\ POD_CACHE (Full.server_request e w pn req s).2 = POD_CACHE s.
Proof.
  intros Hm Hu.
  assert (Full.is_health_request req = true) as Hh
    by (by apply is_health_request_spec).
  destruct (health_cases e w s) as (h & s' & Hrun & Hcache & _ & Hcases).
  assert (Full.server_request e w pn req s
          = (match h with
             | Full.HealthOk pods => Normal (RespondHealth 200 "ok" None pods)
             | Full.Unhealthy reason success =>
                 Normal (RespondHealth 503 "unhealthy" (Some reason) (default [] success))
             end, s')) as ->.
  { unfold Full.server_request. rewrite Hh. unfold mbind, JS_bind. rewrite Hrun.
    by destruct h. }
  destruct Hcases as [[Hun ->]|[(_ & Hc & ->)|[(Hc & Hall & ->)|(Hc & Hall & ->)]]];
    simpl; eexists _, _, _.
  - rewrite (candidates_unset e w Hun). simpl.
    split; [reflexivity|]. split; [by right|]. split; [|done].
    split; [done|]. by intros [? _].
  - rewrite Hc. simpl.
    split; [reflexivity|]. split; [by right|]. split; [|done].
    split; [done|]. by intros [? _].
  - split; [reflexivity|]. split; [by left|]. by split.
  - split; [reflexivity|]. split; [by right|]. split; [|done].
    split; [done|]. by intros [_ ?].
Qed.

Lemma health_endpoint_answer_witness :
  exists status state reason,
    (Full.server_request sample_env sample_world origin_form_pathname
       (Request "GET" "/health") warm_cache).1
    = Normal (RespondHealth status state reason
                (omap (parsable_identity sample_env sample_world)
                      (candidates sample_env sample_world)))
    /\ (status = 200 \/ status = 503)
    /\ (status = 200 <->
        candidates sample_env sample_world <> []
        /\ Forall (fun x => is_Some (parsable_identity sample_env sample_world x))
                  (candidates sample_env sample_world))
    /\ POD_CACHE (Full.server_request sample_env sample_world origin_form_pathname
                    (Request "GET" "/health") warm_cache).2
       = POD_CACHE warm_cache.
Proof.
  apply (health_endpoint_answer sample_env sample_world origin_form_pathname
           (Request "GET" "/health") warm_cache); reflexivity.
Defined.

(** ** The handlers, end to end *)

Lemma present_Some v a : present v = Some a -> v = Some a /\ truthy a = true.
Proof.
  unfold present. destruct v as [b|]; [|done].
  destruct (truthy b) eqn:Hb; [|done]. intros ?; by simplify_eq.
Qed.

Lemma present_truthy a : truthy a = true -> present (Some a) = Some a.
Proof. intros H. unfold present. by rewrite H. Qed.

Lemma host_header_eq x port :
  (if includes ":" x then "[" +:+ x +:+ "]:" +:+ port else x +:+ ":" +:+ port)
  = Full.host_of x +:+ ":" +:+ port.
Proof.
  unfold Full.host_of. destruct (includes ":" x); [|done].
  rewrite !append_assoc. reflexivity.
Qed.

Lemma full_server_request_after e w pn req podId s r s' :
  Full.is_health_request req = false ->
  present (Full.url_podId pn req) = Some podId ->
  Full.discoverAndGetIp e w podId
    (after_log s (LogHttp (method req) (url req) (Full.url_podId pn req)))
  = (Normal r, s') ->
  Full.server_request e w pn req s
  = match present r with
    | None => (Normal (Respond 504 "Pod not found or all replicas unhealthy"),
               after_log s' (LogFail504 podId))
    | Some x => (Normal (ProxyWeb ("http://" +:+ Full.host_of x +:+ ":" +:+ COLYSEUS_PORT e)),
                 s')
    end.
Proof.
  intros Hh Hp Hd. rewrite full_server_request_routing by done. rewrite Hp.
  unfold mbind at 1. unfold JS_bind at 1. rewrite Hd. by destruct (present r).
Qed.

Lemma full_server_upgrade_after e w pn req podId s r s' :
  present (Full.url_podId pn req) = Some podId ->
  Full.discoverAndGetIp e w podId
    (after_log s (LogWsUpgrade (url req) (Full.url_podId pn req)))
  = (Normal r, s') ->
  Full.server_upgrade e w pn req s
  = match present r with
    | None => (Normal SocketDestroy, after_log s' (LogWsRejectNotFound podId))
    | Some x =>
        (Normal (ProxyWs ("ws://" +:+ Full.host_of x +:+ ":" +:+ COLYSEUS_PORT e)
                         (Some (Full.host_of x +:+ ":" +:+ COLYSEUS_PORT e))),
         s')
    end.
Proof.
  intros Hp Hd. unfold Full.server_upgrade.
  unfold mbind at 1. unfold JS_bind at 1. unfold log at 1.
  rewrite Hp. unfold mbind at 1. unfold JS_bind at 1.
  unfold after_log in Hd. rewrite Hd.
  destruct (present r) as [x|]; [|done]. simpl. by rewrite host_header_eq.
Qed.




(** X14: a request that is not the health request, carries a podId and
    misses the cache is handed to the proxy with the first candidate that
    reports that podId as the host of its target
    (http://host:port for a request; ws://host:port with the matching
    Host header for an upgrade), and that candidate is in the cache for
    the podId afterwards. *)
Theorem routed_to_first_match e w pn req podId s pre x post :
  Full.is_health_request req = false ->
  present (Full.url_podId pn req) = Some podId ->
  cache_miss w podId s ->
  candidates e w = pre ++ x :: post ->
  Forall (fun y => full_identifies e w podId y = false) pre ->
  full_identifies e w podId x = true ->
  truthy x = true ->
  (exists s',
     Full.server_request e w pn req s
     = (Normal (ProxyWeb ("http://" +:+ Full.host_of x +:+ ":" +:+ COLYSEUS_PORT e)), s')
     /\ POD_CACHE s' !! podId = Some (CacheEntry x (now_at_store w + Full.TTL)))
  /\ (exists s',
        Full.server_upgrade e w pn req s
        = (Normal (ProxyWs ("ws://" +:+ Full.host_of x +:+ ":" +:+ COLYSEUS_PORT e)
                           (Some (Full.host_of x +:+ ":" +:+ COLYSEUS_PORT e))), s')
        /\ POD_CACHE s' !! podId = Some (CacheEntry x (now_at_store w + Full.TTL))).
Proof.
  intros Hh Hp Hm Hsplit Hpre Hx Hxt. split.
  - destruct (full_discover_first e w podId
                (after_log s (LogHttp (method req) (url req) (Full.url_podId pn req)))
                pre x post) as (s' & Hd & Hcache); try done.
    rewrite (full_server_request_after e w pn req podId s _ s' Hh Hp Hd).
    rewrite (present_truthy x Hxt). exists s'. split; [done|].
    by rewrite Hcache, lookup_insert_eq.
  - destruct (full_discover_first e w podId
                (after_log s (LogWsUpgrade (url req) (Full.url_podId pn req)))
                pre x post) as (s' & Hd & Hcache); try done.
    rewrite (full_server_upgrade_after e w pn req podId s _ s' Hp Hd).
    rewrite (present_truthy x Hxt). exists s'. split; [done|].
    by rewrite Hcache, lookup_insert_eq.
Qed.

Lemma routed_to_first_match_witness :
  (exists s',
     Full.server_request sample_env sample_world origin_form_pathname
       (Request "GET" "/beta/room") initial
     = (Normal (ProxyWeb "http://10.0.0.2:2567"), s')
     /\ POD_CACHE s' !! "beta" = Some (CacheEntry "10.0.0.2" 19200))
  /\ (exists s',
        Full.server_upgrade sample_env sample_world origin_form_pathname
          (Request "GET" "/beta/room") initial
        = (Normal (ProxyWs "ws://10.0.0.2:2567" (Some "10.0.0.2:2567")), s')
        /\ POD_CACHE s' !! "beta" = Some (CacheEntry "10.0.0.2" 19200)).
Proof.
  apply (routed_to_first_match sample_env sample_world origin_form_pathname
           (Request "GET" "/beta/room") "beta" initial ["10.0.0.1"] "10.0.0.2" ["fd00::3"]);
    try reflexivity.
  repeat constructor.
Defined.

(** ** The podId of a request *)

Lemma split_no_separator c s p : p ∈ split c s -> includes c p = false.
Proof.
  revert p. induction s as [|a t IH]; intros p; simpl.
  - rewrite list_elem_of_singleton. by intros ->.
  - destruct (Ascii.eqb a c) eqn:Hac.
    + rewrite elem_of_cons. intros [->|Hp]; [done|by apply IH].
    + destruct (split c t) as [|piece pieces] eqn:Hs.
      * rewrite list_elem_of_singleton. intros ->. simpl. by rewrite Hac.
      * rewrite elem_of_cons. intros [->|Hp].
        -- simpl. rewrite Hac. apply IH. by left.
        -- apply IH. by right.
Qed.

Lemma split_only c s : List.filter truthy (split c s) = [] <-> only c s = true.
Proof.
  induction s as [|a t IH]; simpl; [done|].
  destruct (Ascii.eqb a c) eqn:Hac; simpl; [done|].
  by destruct (split c t).
Qed.

Lemma split_single c p : includes c p = false -> split c p = [p].
Proof.
  induction p as [|a t IH]; simpl; [done|].
  destruct (Ascii.eqb a c); [done|]. intros H. by rewrite (IH H).
Qed.

Lemma split_at_separator c p r :
  includes c p = false -> split c (p +:+ String c r) = p :: split c r.
Proof.
  induction p as [|a t IH]; intros H.
  - change (EmptyString +:+ String c r) with (String c r). simpl.
    by rewrite Ascii.eqb_refl.
  - change (String a t +:+ String c r) with (String a (t +:+ String c r)).
    simpl in *. destruct (Ascii.eqb a c); [done|]. by rewrite (IH H).
Qed.

Lemma append_empty (p : string) : p +:+ EmptyString = p.
Proof.
  induction p as [|a t IH]; [done|].
  change (String a (t +:+ EmptyString) = String a t). by f_equal.
Qed.

(** X15: whatever url.parse makes of the target, the podId that the full
    handlers take from it is never empty and holds no slash; and they
    find none exactly when the target has no pathname or its pathname is
    made of slashes only. *)
Theorem full_url_podId_shape pn req :
  (forall p,
     Full.url_podId pn req = Some p ->
     p <> EmptyString /\ includes "/" p = false /\ present (Some p) = Some p)
  /\ (Full.url_podId pn req = None <->
      match pn (url req) with
      | Some pathname => only "/" pathname = true
      | None => True
      end).
Proof.
  unfold Full.url_podId, filter_Boolean. split.
  - intros p Hp. destruct (pn (url req)) as [pathname|]; [|done].
    apply head_Some_elem_of, filter_elem in Hp as [Hin Ht].
    split; [by intros ->|]. split; [by apply (split_no_separator _ pathname)|].
    by apply present_truthy.
  - destruct (pn (url req)) as [pathname|]; [|done].
    rewrite head_None. apply split_only.
Qed.

(** X16: for a target "/" p rest, where p is not empty and holds no
    slash and rest is empty or starts with a slash, the minimal handlers
    take p as the podId (a query string that follows p without a slash
    is part of p), and so do the full handlers when that target is its
    own pathname. *)
Theorem podId_of_path pn m p rest :
  truthy p = true ->
  includes "/" p = false ->
  (rest = EmptyString \/ exists r, rest = String "/" r) ->
  Minimal.url_podId (Request m (String "/" (p +:+ rest))) = Some p
  /\ (pn (String "/" (p +:+ rest)) = Some (String "/" (p +:+ rest)) ->
      Full.url_podId pn (Request m (String "/" (p +:+ rest))) = Some p).
Proof.
  intros Ht Hp Hrest.
  assert (exists pieces, split "/" (p +:+ rest) = p :: pieces) as [pieces Hs].
  { destruct Hrest as [->|[r ->]].
    - rewrite append_empty, (split_single _ _ Hp). by eexists.
    - rewrite (split_at_separator _ _ _ Hp). by eexists. }
  split.
  - unfold Minimal.url_podId. simpl. by rewrite Hs.
  - intros Hpn. unfold Full.url_podId, filter_Boolean. simpl. rewrite Hpn.
    simpl. rewrite Hs. simpl. by rewrite Ht.
Qed.

Lemma podId_of_path_witness :
  Minimal.url_podId (Request "GET" "/beta?x=1/room") = Some "beta?x=1"
  /\ (origin_form_pathname "/beta/room" = Some "/beta/room" ->
      Full.url_podId origin_form_pathname (Request "GET" "/beta/room") = Some "beta").
Proof.
  split.
  - apply (podId_of_path origin_form_pathname "GET" "beta?x=1" "/room");
      [reflexivity|reflexivity|right; by eexists].
  - apply (podId_of_path origin_form_pathname "GET" "beta" "/room");
      [reflexivity|reflexivity|right; by eexists].
Defined.

(** ** The minimal handlers *)

Lemma minimal_server_request_after e w req podId s c s' :
  present (Minimal.url_podId req) = Some podId ->
  Minimal.getIpForPod e w podId s = (c, s') ->
  Minimal.server_request e w req s
  = match c with
    | Normal r =>
        match present r with
        | None => (Normal (Respond 404 "Pod not found or unhealthy"), s')
        | Some x => (Normal (ProxyWeb ("http://" +:+ x +:+ ":" +:+ COLYSEUS_PORT e)), s')
        end
    | Thrown msg => (Thrown msg, s')
    end.
Proof.
  intros Hp Hd. unfold Minimal.server_request. rewrite Hp.
  unfold mbind at 1, JS_bind at 1. rewrite Hd.
  destruct c as [r|msg]; [|done]. by destruct (present r).
Qed.

Lemma minimal_server_upgrade_after e w req podId s c s' :
  present (Minimal.url_podId req) = Some podId ->
  Minimal.getIpForPod e w podId s = (c, s') ->
  Minimal.server_upgrade e w req s
  = match c with
    | Normal r =>
        match present r with
        | None => (Normal SocketDestroy, s')
        | Some x => (Normal (ProxyWs ("ws://" +:+ x +:+ ":" +:+ COLYSEUS_PORT e) None), s')
        end
    | Thrown msg => (Thrown msg, s')
    end.
Proof.
  intros Hp Hd. unfold Minimal.server_upgrade. rewrite Hp.
  unfold mbind at 1, JS_bind at 1. rewrite Hd.
  destruct c as [r|msg]; [|done]. by destruct (present r).
Qed.

(** X17: with the hostname configured, the two handlers of the minimal
    variant complete without throwing.  The request handler ends the
    response with "Bad request" under the default status, writes a 404,
    or hands the request on with the target http://address:port; the
    upgrade handler destroys the socket or hands it on with the target
    ws://address:port, leaving the Host header as it came. *)
Theorem minimal_handlers_complete e w req s :
  is_Some (env_COLYSEUS_INTERNAL_URL e) ->
  (exists a s',
     Minimal.server_request e w req s = (Normal a, s')
     /\ (a = Respond 200 "Bad request"
         \/ a = Respond 404 "Pod not found or unhealthy"
         \/ exists x,
              truthy x = true
              /\ a = ProxyWeb ("http://" +:+ x +:+ ":" +:+ COLYSEUS_PORT e)))
  /\ (exists a s',
        Minimal.server_upgrade e w req s = (Normal a, s')
        /\ (a = SocketDestroy
            \/ exists x,
                 truthy x = true
                 /\ a = ProxyWs ("ws://" +:+ x +:+ ":" +:+ COLYSEUS_PORT e) None)).
Proof.
  intros [h Hh]. split.
  - destruct (present (Minimal.url_podId req)) as [podId|] eqn:Hp.
    + destruct (minimal_discover_completes e w podId h s Hh) as (r & s' & Hd).
      rewrite (minimal_server_request_after e w req podId s _ s' Hp Hd).
      destruct (present r) as [x|] eqn:Hr; eexists _, _; (split; [reflexivity|]).
      * right; right. exists x. split; [|done]. by apply present_Some in Hr as [_ ?].
      * by right; left.
    + unfold Minimal.server_request. rewrite Hp.
      eexists _, _. split; [reflexivity|]. by left.
  - destruct (present (Minimal.url_podId req)) as [podId|] eqn:Hp.
    + destruct (minimal_discover_completes e w podId h s Hh) as (r & s' & Hd).
      rewrite (minimal_server_upgrade_after e w req podId s _ s' Hp Hd).
      destruct (present r) as [x|] eqn:Hr; eexists _, _; (split; [reflexivity|]).
      * right. exists x. split; [|done]. by apply present_Some in Hr as [_ ?].
      * by left.
    + unfold Minimal.server_upgrade. rewrite Hp.
      eexists _, _. split; [reflexivity|]. by left.
Qed.

Lemma minimal_handlers_complete_witness :
  (exists a s',
     Minimal.server_request sample_env sample_world (Request "GET" "/beta/room") initial
     = (Normal a, s')
     /\ (a = Respond 200 "Bad request"
         \/ a = Respond 404 "Pod not found or unhealthy"
         \/ exists x,
              truthy x = true
              /\ a = ProxyWeb ("http://" +:+ x +:+ ":" +:+ COLYSEUS_PORT sample_env)))
  /\ (exists a s',
        Minimal.server_upgrade sample_env sample_world (Request "GET" "/beta/room") initial
        = (Normal a, s')
        /\ (a = SocketDestroy
            \/ exists x,
                 truthy x = true
                 /\ a = ProxyWs ("ws://" +:+ x +:+ ":" +:+ COLYSEUS_PORT sample_env) None)).
Proof.
  apply (minimal_handlers_complete sample_env sample_world
           (Request "GET" "/beta/room") initial).
  by eexists.
Defined.

(** X18: without a hostname, a request or upgrade that carries a podId
    and misses the cache is answered by the full variant (504 for the
    request, the socket destroyed for the upgrade, nothing sent to DNS or
    to a backend), while in the minimal variant the handler itself throws:
    nothing is answered and nothing is sent. *)
Theorem unset_hostname_requests e w pn req podId s :
  env_COLYSEUS_INTERNAL_URL e = None ->
  cache_miss w podId s ->
  (Full.is_health_request req = false ->
   present (Full.url_podId pn req) = Some podId ->
   (Full.server_request e w pn req s).1
   = Normal (Respond 504 "Pod not found or all replicas unhealthy")
   /\ io (Full.server_request e w pn req s).2 = io s
   /\ (Full.server_upgrade e w pn req s).1 = Normal SocketDestroy
   /\ io (Full.server_upgrade e w pn req s).2 = io s)
  /\ (present (Minimal.url_podId req) = Some podId ->
      Minimal.server_request e w req s = (Thrown "ERR_INVALID_ARG_TYPE", s)
      /\ Minimal.server_upgrade e w req s = (Thrown "ERR_INVALID_ARG_TYPE", s)).
Proof.
  intros Hu Hm. split.
  - intros Hh Hp.
    rewrite (full_server_request_after e w pn req podId s None _ Hh Hp
               (full_discover_unset e w podId (after_log s _) Hm Hu)).
    rewrite (full_server_upgrade_after e w pn req podId s None _ Hp
               (full_discover_unset e w podId (after_log s _) Hm Hu)).
    done.
  - intros Hp.
    rewrite (minimal_server_request_after e w req podId s _ s Hp
               (minimal_discover_unset e w podId s Hm Hu)).
    by rewrite (minimal_server_upgrade_after e w req podId s _ s Hp
                  (minimal_discover_unset e w podId s Hm Hu)).
Qed.

Lemma unset_hostname_requests_witness :
  ((Full.server_request (Env None None) sample_world origin_form_pathname
      (Request "GET" "/beta/room") initial).1
   = Normal (Respond 504 "Pod not found or all replicas unhealthy")
   /\ io (Full.server_request (Env None None) sample_world origin_form_pathname
            (Request "GET" "/beta/room") initial).2 = io initial
   /\ (Full.server_upgrade (Env None None) sample_world origin_form_pathname
         (Request "GET" "/beta/room") initial).1 = Normal SocketDestroy
   /\ io (Full.server_upgrade (Env None None) sample_world origin_form_pathname
            (Request "GET" "/beta/room") initial).2 = io initial)
  /\ (Minimal.server_request (Env None None) sample_world (Request "GET" "/beta/room") initial
      = (Thrown "ERR_INVALID_ARG_TYPE", initial)
      /\ Minimal.server_upgrade (Env None None) sample_world (Request "GET" "/beta/room")
           initial
         = (Thrown "ERR_INVALID_ARG_TYPE", initial)).
Proof.
  destruct (unset_hostname_requests (Env None None) sample_world origin_form_pathname
              (Request "GET" "/beta/room") "beta" initial) as [HF HM].
  - reflexivity.
  - reflexivity.
  - split; [apply HF|apply HM]; reflexivity.
Defined.
